(** * ResponseBuffer: batching and labelling of outbound IRC messages

    A shallow embedding of [irc/responsebuffer.go].  The buffer queues
    messages for one session and, at flush time, decides between a
    [draft/labeled-response] batch, a directly labelled single message
    and a bare [ACK].  The collaborators the buffer talks to (the message
    type, the capability set, the session's socket, the logger and the
    token generator) are modelled as explicit data so every operation is
    an executable state transformer. *)

From stdpp Require Import gmap strings list fin_maps pretty.

Open Scope string_scope.
Open Scope list_scope.

(** ** Collaborators *)

(** Modelled from the spec: package [ircmsg] is not under src/.  A message
    has a tag mapping with unique keys, a source, a command and an ordered
    parameter list; the buffer only reads and writes its tags. *)
Record IrcMessage := mkIrcMessage {
  Tags : gmap string string;
  Prefix : string;
  Command : string;
  Params : list string
}.

(** Modelled from the spec: [ircmsg.MakeMessage]; a nil tag map is [∅]. *)
Definition MakeMessage (tags : gmap string string) (prefix command : string)
    (params : list string) : IrcMessage :=
  {| Tags := tags; Prefix := prefix; Command := command; Params := params |}.

(** Modelled from the spec: [msg.SetTag(name, value)] adds or overwrites. *)
Definition SetTag (name value : string) (msg : IrcMessage) : IrcMessage :=
  {| Tags := <[name := value]> (Tags msg); Prefix := Prefix msg;
     Command := Command msg; Params := Params msg |}.

(** Modelled from the spec: [msg.UpdateTags(tags)] sets every given tag. *)
Definition UpdateTags (tags : gmap string string) (msg : IrcMessage) : IrcMessage :=
  {| Tags := tags ∪ Tags msg; Prefix := Prefix msg;
     Command := Command msg; Params := Params msg |}.

(** Modelled from the spec: [msg.GetTag(name)]: presence and value. *)
Definition GetTag (name : string) (msg : IrcMessage) : bool * string :=
  match Tags msg !! name with
  | Some v => (true, v)
  | None => (false, "")
  end.

Definition HasTag (name : string) (msg : IrcMessage) : bool := fst (GetTag name msg).

(** Modelled from the spec: the feature flags of package [caps] that this
    file queries (request-correlation, message-tags, account-tags,
    long lines, time-tags and the two history batch flavours). *)
Inductive Capability :=
  | LabeledResponse | MessageTags | AccountTag | MaxLine
  | ServerTime | EventPlayback | Batch.

Global Instance Capability_eq_dec : EqDecision Capability.
Proof. solve_decision. Defined.

Definition Capability_code (c : Capability) : nat :=
  match c with
  | LabeledResponse => 0 | MessageTags => 1 | AccountTag => 2 | MaxLine => 3
  | ServerTime => 4 | EventPlayback => 5 | Batch => 6
  end.

Definition Capability_of_code (n : nat) : option Capability :=
  match n with
  | 0 => Some LabeledResponse | 1 => Some MessageTags | 2 => Some AccountTag
  | 3 => Some MaxLine | 4 => Some ServerTime | 5 => Some EventPlayback
  | 6 => Some Batch | _ => None
  end.

Global Instance Capability_countable : Countable Capability.
Proof.
  apply (inj_countable Capability_code Capability_of_code).
  intros []; reflexivity.
Defined.

(** Modelled from the spec: the name of the correlation tag,
    [caps.LabelTagName]; the scenarios of the spec show it as [label=...]. *)
Definition LabelTagName : string := "label".

(** [time.Time], counted from Go's zero instant, so [time.Time{}] is 0. *)
Definition Time := Z.
Bind Scope Z_scope with Time.
Definition zeroTime : Time := 0%Z.

(** A Go [error] value; [nil] is [None]. *)
Definition error := string.

(** The session the buffer writes to.  Everything the buffer reads from
    [rb.session] and [rb.target] is fixed for the buffer's lifetime. *)
Record Session := mkSession {
  sessionID : nat;                      (* the identity of the session pointer *)
  capabilities : gset Capability;
  serverName : string;                  (* session.client.server.name *)
  nick : string;                        (* session.client.nick *)
  clientSessions : list nat;            (* session.client.Sessions() *)
  (* policy of the time-tag helper: the value to attach, if any *)
  timeTagValue : IrcMessage → Time → option string;
  (* outcome of handing one line to the socket *)
  socketWrite : IrcMessage → bool → option error
}.

Definition Has (s : Session) (c : Capability) : bool :=
  bool_decide (c ∈ capabilities s).

(** Modelled from the spec: [session.setTimeTag(&msg, time)] checks the
    time-tags capability itself and lets the session decide what a given
    timestamp (the zero value included) turns into. *)
Definition setTimeTag (s : Session) (msg : IrcMessage) (t : Time) : IrcMessage :=
  if Has s ServerTime then
    match timeTagValue s msg t with
    | Some v => SetTag "time" v msg
    | None => msg
    end
  else msg.

(** One call of [session.SendRawMessage] and what it returned. *)
Record Transmission := mkTransmission {
  t_msg : IrcMessage;
  t_blocking : bool;
  t_result : option error
}.

(** Everything outside the buffer that its operations change: the lines
    handed to the session (oldest first), the lines handed to other
    sessions of the same client, the server's error log, the number of
    stack dumps, and the randomness tokens are drawn from. *)
Record World := mkWorld {
  sent : list Transmission;
  peerSent : list (nat * IrcMessage);
  errlog : list (string * string);
  stackDumps : nat;
  rand : nat → string;
  drawn : nat
}.

(** ** The buffer *)

Definition defaultBatchType : string := "draft/labeled-response".

Record ResponseBuffer := mkResponseBuffer {
  Label : string;
  batchID : string;
  batchType : string;
  nestedBatches : list string;          (* top of the stack is the last element *)
  messages : list IrcMessage;
  finalized : bool;
  session : Session                     (* rb.target is session.client *)
}.

Definition NewResponseBuffer (s : Session) : ResponseBuffer :=
  {| Label := ""; batchID := ""; batchType := defaultBatchType;
     nestedBatches := []; messages := []; finalized := false; session := s |}.

Definition GetLabel (msg : IrcMessage) : string := snd (GetTag LabelTagName msg).

(** ** A state monad over buffer and world *)

Record St := mkSt { buf : ResponseBuffer; world : World }.

Definition M (A : Type) : Type := St → A * St.

Definition ret {A} (a : A) : M A := λ st, (a, st).
Definition bind {A B} (m : M A) (k : A → M B) : M B :=
  λ st, let '(a, st') := m st in k a st'.

Declare Scope rb_scope.
Delimit Scope rb_scope with rb.
Notation "'let*' x ':=' m 'in' k" := (bind m (λ x, k))
  (at level 10, x name, m at level 100, k at level 200) : rb_scope.
Open Scope rb_scope.

Definition exec {A} (m : M A) (st : St) : St := snd (m st).
Definition result {A} (m : M A) (st : St) : A := fst (m st).

Definition getBuf : M ResponseBuffer := λ st, (buf st, st).
Definition modifyBuf (f : ResponseBuffer → ResponseBuffer) : M unit :=
  λ st, ((), {| buf := f (buf st); world := world st |}).
Definition modifyWorld (f : World → World) : M unit :=
  λ st, ((), {| buf := buf st; world := f (world st) |}).

Definition set_batchID (v : string) (r : ResponseBuffer) : ResponseBuffer :=
  {| Label := Label r; batchID := v; batchType := batchType r;
     nestedBatches := nestedBatches r; messages := messages r;
     finalized := finalized r; session := session r |}.
Definition set_batchType (v : string) (r : ResponseBuffer) : ResponseBuffer :=
  {| Label := Label r; batchID := batchID r; batchType := v;
     nestedBatches := nestedBatches r; messages := messages r;
     finalized := finalized r; session := session r |}.
Definition set_nestedBatches (v : list string) (r : ResponseBuffer) : ResponseBuffer :=
  {| Label := Label r; batchID := batchID r; batchType := batchType r;
     nestedBatches := v; messages := messages r;
     finalized := finalized r; session := session r |}.
Definition set_messages (v : list IrcMessage) (r : ResponseBuffer) : ResponseBuffer :=
  {| Label := Label r; batchID := batchID r; batchType := batchType r;
     nestedBatches := nestedBatches r; messages := v;
     finalized := finalized r; session := session r |}.
Definition set_finalized (v : bool) (r : ResponseBuffer) : ResponseBuffer :=
  {| Label := Label r; batchID := batchID r; batchType := batchType r;
     nestedBatches := nestedBatches r; messages := messages r;
     finalized := v; session := session r |}.

(** The ways an operation touches the world. *)
Definition logged (category text : string) (w : World) : World :=
  {| sent := sent w; peerSent := peerSent w;
     errlog := errlog w ++ [(category, text)];
     stackDumps := stackDumps w; rand := rand w; drawn := drawn w |}.
Definition dumped (w : World) : World :=
  {| sent := sent w; peerSent := peerSent w; errlog := errlog w;
     stackDumps := S (stackDumps w); rand := rand w; drawn := drawn w |}.
Definition advanced (w : World) : World :=
  {| sent := sent w; peerSent := peerSent w; errlog := errlog w;
     stackDumps := stackDumps w; rand := rand w; drawn := S (drawn w) |}.
Definition transmitted (ts : list Transmission) (w : World) : World :=
  {| sent := sent w ++ ts; peerSent := peerSent w; errlog := errlog w;
     stackDumps := stackDumps w; rand := rand w; drawn := drawn w |}.
Definition relayed (peer : nat) (msg : IrcMessage) (w : World) : World :=
  {| sent := sent w; peerSent := peerSent w ++ [(peer, msg)]; errlog := errlog w;
     stackDumps := stackDumps w; rand := rand w; drawn := drawn w |}.

(** [rb.target.server.logger.Error(category, text)] *)
Definition logError (category text : string) : M unit :=
  modifyWorld (logged category text).

(** [debug.PrintStack()] *)
Definition PrintStack : M unit := modifyWorld dumped.

(** Modelled from the spec: [utils.GenerateSecretToken()] draws the next
    identifier from the system's randomness. *)
Definition GenerateSecretToken : M string :=
  let* w := (λ st, (world st, st)) in
  let* _ := modifyWorld advanced in
  ret (rand w (drawn w)).

(** The record of handing [msg] to session [s]. *)
Definition wire (s : Session) (blocking : bool) (msg : IrcMessage) : Transmission :=
  mkTransmission msg blocking (socketWrite s msg blocking).

(** Modelled from the spec: [session.SendRawMessage(msg, blocking)] hands
    the line to the session and returns the socket's error, if any. *)
Definition SendRawMessage (s : Session) (msg : IrcMessage) (blocking : bool) : M (option error) :=
  let* _ := modifyWorld (transmitted [wire s blocking msg]) in
  ret (socketWrite s msg blocking).

(** A [for ... range] loop. *)
Fixpoint forEach {A} (l : list A) (body : A → M unit) : M unit :=
  match l with
  | [] => ret ()
  | x :: rest => let* _ := body x in forEach rest body
  end.

(** ** Enqueueing *)

Definition AddMessage (msg : IrcMessage) : M unit :=
  let* r := getBuf in
  if finalized r then
    let* _ := logError "internal" "message added to finalized ResponseBuffer, undefined behavior" in
    PrintStack
  else
    let msg :=
      if bool_decide (0 < length (nestedBatches r)) then
        match last (nestedBatches r) with
        | Some top => SetTag "batch" top msg
        | None => msg
        end
      else msg in
    modifyBuf (λ r, set_messages (messages r ++ [msg]) r).

Definition Add (tags : gmap string string) (prefix command : string)
    (params : list string) : M unit :=
  AddMessage (MakeMessage tags prefix command params).

(** Modelled from the spec: [session.Send(...)] on another session of the
    client hands that session an unlabelled line of its own, past this
    buffer. *)
Definition sessionSend (peer : nat) (tags : gmap string string) (prefix command : string)
    (params : list string) : M unit :=
  modifyWorld (relayed peer (MakeMessage tags prefix command params)).

Definition Broadcast (tags : gmap string string) (prefix command : string)
    (params : list string) : M unit :=
  let* _ := Add tags prefix command params in
  let* r := getBuf in
  forEach (clientSessions (session r)) (λ session',
    if bool_decide (session' ≠ sessionID (session r))
    then sessionSend session' tags prefix command params
    else ret ()).

Definition AddFromClient (time : Time) (msgid fromNickMask fromAccount : string)
    (tags : gmap string string) (command : string) (params : list string) : M unit :=
  let* r := getBuf in
  let s := session r in
  let msg := MakeMessage ∅ fromNickMask command params in
  let msg := if Has s MessageTags then UpdateTags tags msg else msg in
  (* attach account-tag *)
  let msg := if Has s AccountTag && bool_decide (fromAccount ≠ "*")
             then SetTag "account" fromAccount msg else msg in
  (* attach message-id *)
  let msg := if bool_decide (0 < String.length msgid) && Has s MessageTags
             then SetTag "msgid" msgid msg else msg in
  (* attach server-time *)
  let msg := setTimeTag s msg time in
  AddMessage msg.

(** [utils.MessagePair] and [utils.SplitMessage], as this file uses them:
    a fragment has a text and a message-id; the timestamp belongs to the
    whole message.  [Wrapped = None] is Go's nil slice. *)
Record MessagePair := mkMessagePair { mp_Message : string; mp_Msgid : string }.

Global Instance MessagePair_eq_dec : EqDecision MessagePair.
Proof. solve_decision. Defined.

Record SplitMessage := mkSplitMessage {
  sm_Message : string;
  sm_Msgid : string;
  Wrapped : option (list MessagePair);
  sm_Time : Time
}.

Definition AddSplitMessageFromClient (fromNickMask fromAccount : string)
    (tags : gmap string string) (command target : string) (message : SplitMessage) : M unit :=
  let* r := getBuf in
  if Has (session r) MaxLine || bool_decide (Wrapped message = None) then
    AddFromClient (sm_Time message) (sm_Msgid message) fromNickMask fromAccount
                  tags command [target; sm_Message message]
  else
    forEach (default [] (Wrapped message)) (λ messagePair,
      AddFromClient (sm_Time message) (mp_Msgid messagePair) fromNickMask fromAccount
                    tags command [target; mp_Message messagePair]).

(** ** Top-level batch framing *)

Definition sendBatchStart (blocking : bool) : M unit :=
  let* r := getBuf in
  if bool_decide (batchID r ≠ "") then
    (* batch already initialized *)
    ret ()
  else
    let* id := GenerateSecretToken in
    let* _ := modifyBuf (set_batchID id) in
    let* r := getBuf in
    let message := MakeMessage ∅ (serverName (session r)) "BATCH"
                               ["+" +:+ batchID r; batchType r] in
    let message := if bool_decide (Label r ≠ "")
                   then SetTag LabelTagName (Label r) message else message in
    let* _ := SendRawMessage (session r) message blocking in
    ret ().

Definition ForceBatchStart (batchType : string) (blocking : bool) : M unit :=
  let* _ := modifyBuf (set_batchType batchType) in
  sendBatchStart blocking.

Definition sendBatchEnd (blocking : bool) : M unit :=
  let* r := getBuf in
  if bool_decide (batchID r = "") then
    (* we are not sending a batch, skip this *)
    ret ()
  else
    let message := MakeMessage ∅ (serverName (session r)) "BATCH" ["-" +:+ batchID r] in
    let* _ := SendRawMessage (session r) message blocking in
    ret ().

(** ** Nested batches *)

Definition StartNestedBatch (batchType : string) (params : list string) : M string :=
  let* batchID := GenerateSecretToken in
  let* r := getBuf in
  let msgParams := ("+" +:+ batchID) :: batchType :: params in
  let* _ := AddMessage (MakeMessage ∅ (serverName (session r)) "BATCH" msgParams) in
  let* _ := modifyBuf (λ r, set_nestedBatches (nestedBatches r ++ [batchID]) r) in
  ret batchID.

Definition EndNestedBatch (batchID : string) : M unit :=
  if bool_decide (batchID = "") then ret ()
  else
    let* r := getBuf in
    if bool_decide (0 = length (nestedBatches r))
       || bool_decide (last (nestedBatches r) ≠ Some batchID) then
      let* _ := logError "internal" "inconsistent batch nesting detected" in
      PrintStack
    else
      let* _ := modifyBuf (λ r, set_nestedBatches
                           (take (length (nestedBatches r) - 1) (nestedBatches r)) r) in
      AddMessage (MakeMessage ∅ (serverName (session r)) "BATCH" ["-" +:+ batchID]).

Definition StartNestedHistoryBatch (params : list string) : M string :=
  let* r := getBuf in
  let batchType :=
    if Has (session r) EventPlayback then "history"
    else if Has (session r) Batch then "chathistory"
    else "" in
  if bool_decide (batchType ≠ "") then StartNestedBatch batchType params
  else ret "".

(** ** Flushing *)

Definition flushInternal (final blocking : bool) : M (option error) :=
  let* r := getBuf in
  if finalized r then ret None
  else
    let s := session r in
    let useLabel := Has s LabeledResponse && bool_decide (Label r ≠ "") in
    let startBatch := useLabel && (bool_decide (1 < length (messages r)) || negb final) in
    let* _ := (if startBatch then
          sendBatchStart blocking
        else if useLabel && bool_decide (length (messages r) = 0)
                && bool_decide (batchID r = "") && final then
          (* ACK message *)
          let message := MakeMessage ∅ (serverName s) "ACK" [] in
          let message := SetTag LabelTagName (Label r) message in
          let message := setTimeTag s message zeroTime in
          let* _ := SendRawMessage s message blocking in
          ret ()
        else if useLabel && bool_decide (length (messages r) = 1)
                && bool_decide (batchID r = "") && final then
          (* single labeled message *)
          modifyBuf (λ r, set_messages
                            (alter (SetTag LabelTagName (Label r)) 0 (messages r)) r)
        else ret ()) in
    (* send each message out *)
    let* r := getBuf in
    let* _ := forEach (messages r) (λ message,
         let* r := getBuf in
         (* attach server-time if needed *)
         let message := setTimeTag s message zeroTime in
         (* attach batch ID, unless this message was part of a nested batch *)
         let message := if bool_decide (batchID r ≠ "") && negb (HasTag "batch" message)
                        then SetTag "batch" (batchID r) message else message in
         let* _ := SendRawMessage s message blocking in
         ret ()) in
    (* end batch if required *)
    let* _ := (if final then
          let* _ := sendBatchEnd blocking in
          modifyBuf (set_finalized true)
        else ret ()) in
    (* clear out any existing messages *)
    let* _ := modifyBuf (set_messages []) in
    ret None.

Definition Send (blocking : bool) : M (option error) := flushInternal true blocking.
Definition Flush (blocking : bool) : M (option error) := flushInternal false blocking.

Definition Notice (text : string) : M unit :=
  let* r := getBuf in
  Add ∅ (serverName (session r)) "NOTICE" [nick (session r); text].

(** ** Callers *)

(** [rb.Label = label]: the label is an exported field, assigned by the
    caller after construction. *)
Definition SetLabel (label : string) : M unit :=
  modifyBuf (λ r, {| Label := label; batchID := batchID r; batchType := batchType r;
                     nestedBatches := nestedBatches r; messages := messages r;
                     finalized := finalized r; session := session r |}).

(** One call made on a buffer. *)
Inductive Op :=
  | OpSetLabel (label : string)
  | OpAddMessage (msg : IrcMessage)
  | OpAdd (tags : gmap string string) (prefix command : string) (params : list string)
  | OpBroadcast (tags : gmap string string) (prefix command : string) (params : list string)
  | OpAddFromClient (time : Time) (msgid fromNickMask fromAccount : string)
      (tags : gmap string string) (command : string) (params : list string)
  | OpAddSplitMessageFromClient (fromNickMask fromAccount : string)
      (tags : gmap string string) (command target : string) (message : SplitMessage)
  | OpForceBatchStart (batchType : string) (blocking : bool)
  | OpSendBatchStart (blocking : bool)
  | OpSendBatchEnd (blocking : bool)
  | OpStartNestedBatch (batchType : string) (params : list string)
  | OpEndNestedBatch (batchID : string)
  | OpStartNestedHistoryBatch (params : list string)
  | OpSend (blocking : bool)
  | OpFlush (blocking : bool)
  | OpNotice (text : string).

Definition discard {A} (m : M A) : M unit := let* _ := m in ret ().

Definition call (op : Op) : M unit :=
  match op with
  | OpSetLabel l => SetLabel l
  | OpAddMessage msg => AddMessage msg
  | OpAdd tags prefix command params => Add tags prefix command params
  | OpBroadcast tags prefix command params => Broadcast tags prefix command params
  | OpAddFromClient t msgid mask account tags command params =>
      AddFromClient t msgid mask account tags command params
  | OpAddSplitMessageFromClient mask account tags command target message =>
      AddSplitMessageFromClient mask account tags command target message
  | OpForceBatchStart bt blocking => ForceBatchStart bt blocking
  | OpSendBatchStart blocking => sendBatchStart blocking
  | OpSendBatchEnd blocking => sendBatchEnd blocking
  | OpStartNestedBatch bt params => discard (StartNestedBatch bt params)
  | OpEndNestedBatch id => EndNestedBatch id
  | OpStartNestedHistoryBatch params => discard (StartNestedHistoryBatch params)
  | OpSend blocking => discard (Send blocking)
  | OpFlush blocking => discard (Flush blocking)
  | OpNotice text => Notice text
  end.

Definition calls (ops : list Op) : M unit := forEach ops call.

(** ** Vocabulary of the statements *)

(** The form in which [AddMessage] stores [msg] in buffer [r]. *)
Definition queuedForm (r : ResponseBuffer) (msg : IrcMessage) : IrcMessage :=
  match last (nestedBatches r) with
  | Some top => SetTag "batch" top msg
  | None => msg
  end.

(** The form in which the flush loop hands a queued message to the session
    while the top-level batch identifier is [id]. *)
Definition outgoing (s : Session) (id : string) (message : IrcMessage) : IrcMessage :=
  let message := setTimeTag s message zeroTime in
  if bool_decide (id ≠ "") && negb (HasTag "batch" message)
  then SetTag "batch" id message else message.

(** The world after an internal error was reported. *)
Definition reported (text : string) (w : World) : World :=
  dumped (logged "internal" text w).

(** The lines handed to the session since the log had [n] entries. *)
Definition sentSince (n : nat) (st : St) : list IrcMessage :=
  map t_msg (drop n (sent (world st))).

Definition sentBy {A} (m : M A) (st : St) : list IrcMessage :=
  sentSince (length (sent (world st))) (exec m st).

(** The framing lines of the top-level batch [id] of buffer [r]. *)
Definition batchOpenLine (r : ResponseBuffer) (id : string) : IrcMessage :=
  let message := MakeMessage ∅ (serverName (session r)) "BATCH" ["+" +:+ id; batchType r] in
  if bool_decide (Label r ≠ "") then SetTag LabelTagName (Label r) message else message.

Definition batchCloseLine (r : ResponseBuffer) (id : string) : IrcMessage :=
  MakeMessage ∅ (serverName (session r)) "BATCH" ["-" +:+ id].

(** A close line of some batch, top-level or nested. *)
Definition isBatchClose (m : IrcMessage) : Prop :=
  Command m = "BATCH" ∧ ∃ id, Params m = ["-" +:+ id].

(** What no operation changes once it is set: the session, and the
    identifier of the top-level batch. *)
Definition keepsBatch (r r' : ResponseBuffer) : Prop :=
  session r' = session r ∧ (batchID r ≠ "" → batchID r' = batchID r).

(** What only enqueueing and nested-batch bookkeeping leave alone. *)
Definition sameFrame (r r' : ResponseBuffer) : Prop :=
  session r' = session r ∧ batchID r' = batchID r ∧ finalized r' = finalized r.

(** Calls other than the terminal flush. *)
Definition nonTerminal (op : Op) : Prop :=
  match op with OpSend _ => False | _ => True end.

(** [m] is the open line of a batch with identifier [id]. *)
Definition isOpenFor (id : string) (m : IrcMessage) : bool :=
  bool_decide (Command m = "BATCH")
  && bool_decide (head (Params m) = Some ("+" +:+ id)).

Definition countOpens (id : string) (l : list IrcMessage) : nat :=
  length (List.filter (isOpenFor id) l).

Definition queuedOpens (id : string) (st : St) : nat :=
  countOpens id (messages (buf st)).

Definition sentOpens (id : string) (st : St) : nat :=
  countOpens id (map t_msg (sent (world st))).

(** The framing lines are the buffer's to write: the caller hands over no
    BATCH command of its own. *)
Definition honest (op : Op) : Prop :=
  match op with
  | OpAddMessage msg => Command msg ≠ "BATCH"
  | OpAdd _ _ command _ => command ≠ "BATCH"
  | OpBroadcast _ _ command _ => command ≠ "BATCH"
  | OpAddFromClient _ _ _ _ _ command _ => command ≠ "BATCH"
  | OpAddSplitMessageFromClient _ _ _ command _ _ => command ≠ "BATCH"
  | _ => True
  end.

(** Tokens that were not drawn yet occur in no open line, queued or sent;
    the identifier of the top-level batch, once set, is a drawn token with
    exactly one open line sent and none queued. *)
Definition batchInv (st : St) : Prop :=
  (∀ j, (drawn (world st) ≤ j)%nat →
     queuedOpens (rand (world st) j) st = 0 ∧ sentOpens (rand (world st) j) st = 0)
  ∧ (batchID (buf st) ≠ "" →
     (∃ k, k < drawn (world st) ∧ batchID (buf st) = rand (world st) k)
     ∧ sentOpens (batchID (buf st)) st = 1
     ∧ queuedOpens (batchID (buf st)) st = 0).

(** A step that draws no token, keeps the batch identifier and neither
    queues nor sends a new open line. *)
Definition plainStep (st st' : St) : Prop :=
  rand (world st') = rand (world st)
  ∧ drawn (world st') = drawn (world st)
  ∧ batchID (buf st') = batchID (buf st)
  ∧ ∀ id, queuedOpens id st = 0 →
          queuedOpens id st' = 0 ∧ sentOpens id st' = sentOpens id st.

(** A step that keeps the token source and, when tokens are never
    repeated, the invariant of the top-level batch. *)
Definition preservesInv (st st' : St) : Prop :=
  rand (world st') = rand (world st)
  ∧ (Inj (=) (=) (rand (world st)) → batchInv st → batchInv st').

(** The message a labelled flush with nothing to say sends. *)
Definition ackMessage (r : ResponseBuffer) : IrcMessage :=
  setTimeTag (session r)
             (SetTag LabelTagName (Label r) (MakeMessage ∅ (serverName (session r)) "ACK" []))
             zeroTime.

(** The state after the framing decision that opens [flushInternal]. *)
Definition afterDecision (final blocking : bool) (st : St) : St :=
  let r := buf st in
  let s := session r in
  let useLabel := Has s LabeledResponse && bool_decide (Label r ≠ "") in
  let startBatch := useLabel && (bool_decide (1 < length (messages r)) || negb final) in
  if startBatch then exec (sendBatchStart blocking) st
  else if useLabel && bool_decide (length (messages r) = 0)
          && bool_decide (batchID r = "") && final then
    {| buf := r; world := transmitted [wire s blocking (ackMessage r)] (world st) |}
  else if useLabel && bool_decide (length (messages r) = 1)
          && bool_decide (batchID r = "") && final then
    {| buf := set_messages (alter (SetTag LabelTagName (Label r)) 0 (messages r)) r;
       world := world st |}
  else st.

(** The state after the queue has been handed to the session. *)
Definition afterQueue (blocking : bool) (st : St) : St :=
  let r := buf st in
  {| buf := r;
     world := transmitted (map (λ m, wire (session r) blocking
                                          (outgoing (session r) (batchID r) m))
                               (messages r))
                          (world st) |}.

Definition afterClose (final blocking : bool) (st : St) : St :=
  if final then
    let st' := exec (sendBatchEnd blocking) st in
    {| buf := set_finalized true (buf st'); world := world st' |}
  else st.

(** The message [AddFromClient] builds before it hands it to [AddMessage]. *)
Definition clientMessage (s : Session) (time : Time) (msgid fromNickMask fromAccount : string)
    (tags : gmap string string) (command : string) (params : list string) : IrcMessage :=
  let msg := MakeMessage ∅ fromNickMask command params in
  let msg := if Has s MessageTags then UpdateTags tags msg else msg in
  let msg := if Has s AccountTag && bool_decide (fromAccount ≠ "*")
             then SetTag "account" fromAccount msg else msg in
  let msg := if bool_decide (0 < String.length msgid) && Has s MessageTags
             then SetTag "msgid" msgid msg else msg in
  setTimeTag s msg time.

(** [m] is the line [q] with, at most, other tags. *)
Definition sameLine (q m : IrcMessage) : Prop :=
  Prefix m = Prefix q ∧ Command m = Command q ∧ Params m = Params q.

(** What one flush sends ahead of the queue: nothing, the ACK, or the open
    line of the top-level batch; and after it: nothing or the close line. *)
Definition flushPrelude (r : ResponseBuffer) (pre : list IrcMessage) : Prop :=
  pre = [] ∨ pre = [ackMessage r] ∨ ∃ id, pre = [batchOpenLine r id].

Definition flushCoda (r : ResponseBuffer) (final : bool) (post : list IrcMessage) : Prop :=
  post = [] ∨ (final = true ∧ ∃ id, id ≠ "" ∧ post = [batchCloseLine r id]).

(** The calls that enqueue or flush; the rest of [Op] sets the label or
    drives the framing of the top-level batch directly. *)
Definition buffered (op : Op) : Prop :=
  match op with
  | OpSetLabel _ | OpForceBatchStart _ _ | OpSendBatchStart _ | OpSendBatchEnd _ => False
  | _ => True
  end.

(** The copies [Broadcast] hands to the other sessions of the client. *)
Definition broadcastCopies (s : Session) (msg : IrcMessage) : list (nat * IrcMessage) :=
  map (λ peer, (peer, msg))
      (List.filter (λ peer, bool_decide (peer ≠ sessionID s)) (clientSessions s)).

(** A step that neither queues nor sends anything and keeps the flags of
    the top-level batch. *)
Definition silent (st st' : St) : Prop :=
  finalized (buf st') = finalized (buf st)
  ∧ messages (buf st') = messages (buf st)
  ∧ sent (world st') = sent (world st)
  ∧ batchID (buf st') = batchID (buf st).

(** The buffer a command handler starts from: new, labelled with the label
    tag of the request. *)
Definition bufferFor (s : Session) (request : IrcMessage) (w : World) : St :=
  exec (SetLabel (GetLabel request)) {| buf := NewResponseBuffer s; world := w |}.

(** [m] is the close line of the batch with identifier [id]. *)
Definition isCloseFor (id : string) (m : IrcMessage) : bool :=
  bool_decide (Command m = "BATCH") && bool_decide (Params m = ["-" +:+ id]).

Definition countCloses (id : string) (l : list IrcMessage) : nat :=
  length (List.filter (isCloseFor id) l).

Definition queuedCloses (id : string) (st : St) : nat :=
  countCloses id (messages (buf st)).

Definition sentCloses (id : string) (st : St) : nat :=
  countCloses id (map t_msg (sent (world st))).

(** Calls other than [sendBatchEnd] itself, which is for [Send] to make. *)
Definition notSendBatchEnd (op : Op) : Prop :=
  match op with OpSendBatchEnd _ => False | _ => True end.

(** The open nested batches are drawn tokens; tokens not drawn yet occur
    in no close line; the identifier of the top-level batch, once set, is
    a drawn token that names no nested batch, has no close line queued, at
    most one sent, and none sent while the buffer is not finalized. *)
Definition closeInv (st : St) : Prop :=
  (∀ x, x ∈ nestedBatches (buf st) →
     ∃ k, k < drawn (world st) ∧ x = rand (world st) k)
  ∧ (∀ j, (drawn (world st) ≤ j)%nat →
       queuedCloses (rand (world st) j) st = 0 ∧ sentCloses (rand (world st) j) st = 0)
  ∧ (batchID (buf st) ≠ "" →
     (∃ k, k < drawn (world st) ∧ batchID (buf st) = rand (world st) k)
     ∧ (batchID (buf st) ∉ nestedBatches (buf st))
     ∧ queuedCloses (batchID (buf st)) st = 0
     ∧ (sentCloses (batchID (buf st)) st ≤ 1)%nat
     ∧ (finalized (buf st) = false → sentCloses (batchID (buf st)) st = 0)).

(** A step that draws no token, keeps identifier and finalization, opens
    no nested batch and neither queues nor sends a close line of a batch
    that is not an open nested batch. *)
Definition closeStep (st st' : St) : Prop :=
  rand (world st') = rand (world st)
  ∧ drawn (world st') = drawn (world st)
  ∧ batchID (buf st') = batchID (buf st)
  ∧ finalized (buf st') = finalized (buf st)
  ∧ (∀ x, x ∈ nestedBatches (buf st') → x ∈ nestedBatches (buf st))
  ∧ ∀ id, id ∉ nestedBatches (buf st) → queuedCloses id st = 0 →
          queuedCloses id st' = 0 ∧ sentCloses id st' = sentCloses id st.

Definition preservesClose (st st' : St) : Prop :=
  rand (world st') = rand (world st)
  ∧ (Inj (=) (=) (rand (world st)) → closeInv st → closeInv st').

(** The calls that only enqueue: no flush, no direct framing. *)
Definition enqueueing (op : Op) : Prop :=
  match op with
  | OpSend _ | OpFlush _ | OpForceBatchStart _ _ | OpSendBatchStart _
  | OpSendBatchEnd _ => False
  | _ => True
  end.

(** A step that sends nothing and at most appends to the queue. *)
Definition appends (st st' : St) : Prop :=
  sent (world st') = sent (world st)
  ∧ messages (buf st) `prefix_of` messages (buf st')
  ∧ finalized (buf st') = finalized (buf st)
  ∧ batchID (buf st') = batchID (buf st).

(** ** Sample collaborators

    A session that time-stamps what is not stamped yet and whose socket
    accepts every line, one whose socket is closed, and a token source. *)

Definition demoTimeTag (msg : IrcMessage) (t : Time) : option string :=
  if HasTag "time" msg then None else Some ("T" +:+ pretty t).

Definition demoSession (cs : gset Capability) : Session :=
  {| sessionID := 1; capabilities := cs; serverName := "irc.example.net"; nick := "alice";
     clientSessions := [1; 2];
     timeTagValue := demoTimeTag; socketWrite := λ _ _, None |}.

Definition closedSession (cs : gset Capability) : Session :=
  {| sessionID := 1; capabilities := cs; serverName := "irc.example.net"; nick := "alice";
     clientSessions := [1; 2];
     timeTagValue := demoTimeTag; socketWrite := λ _ _, Some "use of closed connection" |}.

Definition demoRand (n : nat) : string := "tok" +:+ pretty n.

Definition demoWorld : World :=
  {| sent := []; peerSent := []; errlog := []; stackDumps := 0;
     rand := demoRand; drawn := 0 |}.

(** A fresh buffer for [s] carrying the request's label. *)
Definition fresh (s : Session) (label : string) : St :=
  exec (SetLabel label) {| buf := NewResponseBuffer s; world := demoWorld |}.

Definition privmsg (text : string) : IrcMessage :=
  MakeMessage ∅ "bob!bob@example.org" "PRIVMSG" ["#chan"; text].

Definition bobMask : string := "bob!bob@example.org".

(** A finalized buffer: a labelled request answered with a bare ACK. *)
Definition ackedSt : St :=
  exec (Send true) (fresh (demoSession {[LabeledResponse]}) "abc123").

(** A buffer with one nested batch open. *)
Definition nestedSt : St :=
  exec (StartNestedBatch "history" ["#chan"]) (fresh (demoSession ∅) "").

(** One queued line on a session whose socket is closed. *)
Definition closedSt : St :=
  exec (AddMessage (privmsg "hi")) (fresh (closedSession ∅) "").

(** A labelled request answered from a replayed nested batch. *)
Definition replayedSt : St :=
  exec (let* id := StartNestedBatch "history" ["#chan"] in
        let* _ := AddMessage (privmsg "hi") in
        EndNestedBatch id)
       (fresh (demoSession {[LabeledResponse]}) "abc123").

(** A labelled request with two replies queued. *)
Definition twoQueuedSt : St :=
  exec (let* _ := AddMessage (privmsg "hi") in AddMessage (privmsg "there"))
       (fresh (demoSession {[LabeledResponse]}) "abc123").

(** A nested batch opened and closed again, both lines still queued. *)
Definition closedNestedSt : St :=
  exec (let* id := StartNestedBatch "history" ["#chan"] in EndNestedBatch id)
       (fresh (demoSession {[Batch]}) "").

(** A labelled request with one reply queued, before any flush. *)
Definition oneQueuedSt : St :=
  exec (AddMessage (privmsg "hi")) (fresh (demoSession {[LabeledResponse]}) "abc123").

(** The same request after a non-terminal flush and two more replies. *)
Definition flushedSt : St :=
  exec (let* _ := Flush true in
        let* _ := AddMessage (privmsg "more") in
        AddMessage (privmsg "last"))
       twoQueuedSt.

(** The same two fragments, relayed at two different times. *)
Definition twoFragments : list MessagePair :=
  [mkMessagePair "hello" "id1"; mkMessagePair "world" "id2"].
Definition splitAt (t : Time) : SplitMessage :=
  mkSplitMessage "hello world" "id0" (Some twoFragments) t.

(** ** Equations of the operations *)

Ltac unfold_monad :=
  unfold exec, result, discard, bind, ret, getBuf, modifyBuf, modifyWorld,
         logError, PrintStack, GenerateSecretToken, SendRawMessage in *.

Lemma buf_eta (r : ResponseBuffer) :
  {| Label := Label r; batchID := batchID r; batchType := batchType r;
     nestedBatches := nestedBatches r; messages := messages r;
     finalized := finalized r; session := session r |} = r.
Proof. by destruct r. Qed.

Lemma AddMessage_eq (msg : IrcMessage) (st : St) :
  AddMessage msg st =
    ((), if finalized (buf st)
         then {| buf := buf st;
                 world := reported "message added to finalized ResponseBuffer, undefined behavior"
                                   (world st) |}
         else {| buf := set_messages (messages (buf st) ++ [queuedForm (buf st) msg]) (buf st);
                 world := world st |}).
Proof.
  unfold AddMessage, queuedForm. unfold_monad.
  destruct (finalized (buf st)); [done|].
  case_bool_decide as Hlen.
  - done.
  - destruct (nestedBatches (buf st)); [done | simpl in Hlen; lia].
Qed.

Lemma sendBatchStart_eq (blocking : bool) (st : St) :
  sendBatchStart blocking st =
    ((), if bool_decide (batchID (buf st) ≠ "") then st
         else
           let id := rand (world st) (drawn (world st)) in
           let r := set_batchID id (buf st) in
           let message := MakeMessage ∅ (serverName (session r)) "BATCH"
                                      ["+" +:+ id; batchType r] in
           let message := if bool_decide (Label r ≠ "")
                          then SetTag LabelTagName (Label r) message else message in
           {| buf := r;
              world := transmitted [wire (session r) blocking message]
                                   (advanced (world st)) |}).
Proof.
  unfold sendBatchStart. unfold_monad.
  case_bool_decide; [by destruct st | done].
Qed.

Lemma sendBatchEnd_eq (blocking : bool) (st : St) :
  sendBatchEnd blocking st =
    ((), if bool_decide (batchID (buf st) = "") then st
         else
           let r := buf st in
           {| buf := r;
              world := transmitted
                         [wire (session r) blocking
                               (MakeMessage ∅ (serverName (session r)) "BATCH"
                                            ["-" +:+ batchID r])]
                         (world st) |}).
Proof.
  unfold sendBatchEnd. unfold_monad.
  case_bool_decide; [by destruct st | done].
Qed.

Lemma forEach_send (s : Session) (blocking : bool) (ms : list IrcMessage) (st : St) :
  forEach ms (λ message,
     let* r := getBuf in
     let message := setTimeTag s message zeroTime in
     let message := if bool_decide (batchID r ≠ "") && negb (HasTag "batch" message)
                    then SetTag "batch" (batchID r) message else message in
     let* _ := SendRawMessage s message blocking in
     ret ()) st =
  ((), {| buf := buf st;
          world := transmitted (map (λ m, wire s blocking (outgoing s (batchID (buf st)) m)) ms)
                               (world st) |}).
Proof.
  set (body := λ message : IrcMessage, _).
  assert (Hbody : ∀ m st, body m st =
            ((), {| buf := buf st;
                    world := transmitted [wire s blocking (outgoing s (batchID (buf st)) m)]
                                         (world st) |})).
  { intros m st'. subst body. by unfold_monad. }
  revert st. induction ms as [|m ms IH]; intros st.
  - simpl. unfold ret, transmitted. rewrite app_nil_r. by destruct st as [? []].
  - cbn [forEach]. unfold bind. rewrite Hbody, IH. simpl.
    unfold transmitted. simpl. by rewrite <- app_assoc.
Qed.

Lemma bind_run {A B} (m : M A) (k : A → M B) (st : St) :
  bind m k st = k (result m st) (exec m st).
Proof. unfold bind, result, exec. by destruct (m st). Qed.

Lemma sendBatchStart_session blocking st :
  session (buf (exec (sendBatchStart blocking) st)) = session (buf st).
Proof.
  unfold exec. rewrite sendBatchStart_eq. simpl. by case_bool_decide.
Qed.

Lemma afterDecision_session final blocking st :
  session (buf (afterDecision final blocking st)) = session (buf st).
Proof.
  unfold afterDecision.
  repeat match goal with |- context [if ?b then _ else _] => destruct b end;
    simpl; auto using sendBatchStart_session.
Qed.

Lemma flushInternal_eq (final blocking : bool) (st : St) :
  flushInternal final blocking st =
    (None,
     if finalized (buf st) then st
     else
       let st3 := afterClose final blocking
                    (afterQueue blocking (afterDecision final blocking st)) in
       {| buf := set_messages [] (buf st3); world := world st3 |}).
Proof.
  unfold flushInternal. rewrite bind_run.
  change (result getBuf st) with (buf st). change (exec getBuf st) with st.
  destruct (finalized (buf st)) eqn:Hfin; [done|].
  rewrite bind_run.
  match goal with |- context [exec ?m st] =>
    replace (exec m st) with (afterDecision final blocking st) end.
  2:{ unfold afterDecision. cbv zeta.
      repeat match goal with |- context [if ?b then _ else _] => destruct b end;
        try reflexivity. }
  set (st1 := afterDecision final blocking st).
  rewrite bind_run.
  change (result getBuf st1) with (buf st1). change (exec getBuf st1) with st1.
  rewrite bind_run. unfold exec at 1. rewrite forEach_send. cbn [snd].
  replace (session (buf st)) with (session (buf st1))
    by apply afterDecision_session.
  fold (afterQueue blocking st1). set (st2 := afterQueue blocking st1).
  rewrite bind_run.
  match goal with |- context [exec ?m st2] =>
    replace (exec m st2) with (afterClose final blocking st2) end.
  2:{ unfold afterClose. destruct final; [|done].
      unfold exec at 3. by rewrite bind_run. }
  done.
Qed.

(** ** Enqueueing into a finalized buffer *)

(** C4: on a finalized buffer [AddMessage] returns normally, leaves every
    field of the buffer (the queue included) and the transmission log as
    they were, and only reports an internal error. *)
Theorem AddMessage_finalized_rejects (msg : IrcMessage) (st : St) :
  finalized (buf st) = true →
  AddMessage msg st =
    ((), {| buf := buf st;
            world := reported "message added to finalized ResponseBuffer, undefined behavior"
                              (world st) |})
  ∧ messages (buf (exec (AddMessage msg) st)) = messages (buf st)
  ∧ sent (world (exec (AddMessage msg) st)) = sent (world st)
  ∧ errlog (world (exec (AddMessage msg) st)) =
      errlog (world st)
        ++ [("internal", "message added to finalized ResponseBuffer, undefined behavior")].
Proof.
  intros Hfin. unfold exec. rewrite AddMessage_eq, Hfin. done.
Qed.

Lemma AddMessage_finalized_rejects_witness :
  finalized (buf ackedSt) = true
  ∧ messages (buf (exec (AddMessage (privmsg "hi")) ackedSt)) = messages (buf ackedSt).
Proof.
  split; [reflexivity|].
  apply (AddMessage_finalized_rejects (privmsg "hi") ackedSt).
  reflexivity.
Defined.

(** ** Nested batches *)

(** C5: closing a nested batch with a non-empty identifier that is not on
    top of the stack (or with the stack empty) leaves the whole buffer,
    stack and queue included, as it was and only reports an internal
    error; closing with the empty identifier changes nothing at all. *)
Theorem EndNestedBatch_mismatch (b : string) (st : St) :
  (b = "" → EndNestedBatch b st = ((), st))
  ∧ (b ≠ "" →
     nestedBatches (buf st) = [] ∨ last (nestedBatches (buf st)) ≠ Some b →
     EndNestedBatch b st =
       ((), {| buf := buf st;
               world := reported "inconsistent batch nesting detected" (world st) |})
     ∧ nestedBatches (buf (exec (EndNestedBatch b) st)) = nestedBatches (buf st)
     ∧ messages (buf (exec (EndNestedBatch b) st)) = messages (buf st)
     ∧ sent (world (exec (EndNestedBatch b) st)) = sent (world st)).
Proof.
  split.
  - intros ->. reflexivity.
  - intros Hb Htop.
    assert (EndNestedBatch b st =
              ((), {| buf := buf st;
                      world := reported "inconsistent batch nesting detected" (world st) |}))
      as Heq.
    { unfold EndNestedBatch. rewrite bool_decide_eq_false_2 by done.
      rewrite bind_run. change (result getBuf st) with (buf st).
      change (exec getBuf st) with st.
      destruct Htop as [Hnil | Hne].
      - rewrite Hnil. reflexivity.
      - rewrite (bool_decide_eq_true_2 (last _ ≠ Some b)) by done.
        rewrite orb_true_r. reflexivity. }
    unfold exec. rewrite Heq. done.
Qed.

Lemma EndNestedBatch_mismatch_witness :
  EndNestedBatch "" nestedSt = ((), nestedSt)
  ∧ nestedBatches (buf (exec (EndNestedBatch "tok7") nestedSt)) = nestedBatches (buf nestedSt)
  ∧ messages (buf (exec (EndNestedBatch "tok7") (fresh (demoSession ∅) ""))) = [].
Proof.
  split; [|split].
  - apply (proj1 (EndNestedBatch_mismatch "" nestedSt)).
    reflexivity.
  - apply (proj2 (EndNestedBatch_mismatch "tok7" nestedSt)).
    + discriminate.
    + right. vm_compute. discriminate.
  - apply (proj2 (EndNestedBatch_mismatch "tok7" (fresh (demoSession ∅) ""))).
    + discriminate.
    + left. reflexivity.
Defined.

(** C10: the open line of a nested batch is stored with the batch tag of
    the enclosing nested batch (the top of the stack before the call) and
    with no tag at all when the stack was empty; the new identifier is
    pushed only afterwards, so it is never the tag of its own open line
    unless it collides with the enclosing identifier. *)
Theorem StartNestedBatch_open_tag (batchType : string) (params : list string) (st : St) :
  finalized (buf st) = false →
  let id := rand (world st) (drawn (world st)) in
  let st' := exec (StartNestedBatch batchType params) st in
  result (StartNestedBatch batchType params) st = id
  ∧ nestedBatches (buf st') = nestedBatches (buf st) ++ [id]
  ∧ ∃ open,
      messages (buf st') = messages (buf st) ++ [open]
      ∧ Prefix open = serverName (session (buf st))
      ∧ Command open = "BATCH"
      ∧ Params open = ("+" +:+ id) :: batchType :: params
      ∧ match last (nestedBatches (buf st)) with
        | Some top => Tags open = {["batch" := top]}
                      ∧ (id ≠ top → Tags open !! "batch" ≠ Some id)
        | None => Tags open = ∅
        end.
Proof.
  intros Hfin id st'.
  assert (StartNestedBatch batchType params st =
            (id, {| buf := set_nestedBatches (nestedBatches (buf st) ++ [id])
                             (set_messages
                                (messages (buf st) ++
                                   [queuedForm (buf st)
                                      (MakeMessage ∅ (serverName (session (buf st))) "BATCH"
                                                   (("+" +:+ id) :: batchType :: params))])
                                (buf st));
                    world := advanced (world st) |})) as Heq.
  { unfold StartNestedBatch. rewrite bind_run.
    change (result GenerateSecretToken st) with id.
    change (exec GenerateSecretToken st)
      with {| buf := buf st; world := advanced (world st) |}.
    rewrite bind_run. cbn [result exec getBuf fst snd buf].
    rewrite bind_run. unfold exec, result. rewrite AddMessage_eq.
    cbn [fst snd buf]. rewrite Hfin. reflexivity. }
  subst st'. unfold exec, result. rewrite Heq. cbn [fst snd buf].
  split; [done|]. split; [done|].
  eexists. split; [reflexivity|].
  unfold queuedForm. destruct (last (nestedBatches (buf st))) as [top|]; simpl.
  - repeat split; try done.
    rewrite lookup_insert_eq. congruence.
  - done.
Qed.

Lemma StartNestedBatch_open_tag_witness :
  finalized (buf nestedSt) = false
  ∧ nestedBatches (buf (exec (StartNestedBatch "chathistory" ["#chan"]) nestedSt))
    = ["tok0"; "tok1"].
Proof.
  split; [reflexivity|].
  apply (StartNestedBatch_open_tag "chathistory" ["#chan"] nestedSt).
  reflexivity.
Defined.

(** ** Messages relayed from another client *)

Lemma AddFromClient_eq time msgid mask account tags command params (st : St) :
  AddFromClient time msgid mask account tags command params st =
    AddMessage (clientMessage (session (buf st)) time msgid mask account tags command params) st.
Proof. unfold AddFromClient. by rewrite bind_run. Qed.

Lemma AddFromClient_queue time msgid mask account tags command params (st : St) :
  finalized (buf st) = false →
  AddFromClient time msgid mask account tags command params st =
    ((), {| buf := set_messages
                     (messages (buf st) ++
                        [queuedForm (buf st)
                           (clientMessage (session (buf st)) time msgid mask account
                                          tags command params)])
                     (buf st);
            world := world st |}).
Proof. intros Hfin. by rewrite AddFromClient_eq, AddMessage_eq, Hfin. Qed.

Lemma Tags_setTimeTag s msg t k :
  k ≠ "time" → Tags (setTimeTag s msg t) !! k = Tags msg !! k.
Proof.
  intros Hk. unfold setTimeTag. destruct (Has s ServerTime); [|done].
  destruct (timeTagValue s msg t); [|done]. simpl. by rewrite lookup_insert_ne.
Qed.

Lemma Tags_queuedForm r msg k :
  k ≠ "batch" → Tags (queuedForm r msg) !! k = Tags msg !! k.
Proof.
  intros Hk. unfold queuedForm. destruct (last (nestedBatches r)); [|done].
  simpl. by rewrite lookup_insert_ne.
Qed.

Lemma nonempty_length (x : string) :
  bool_decide (0 < String.length x) = bool_decide (x ≠ "").
Proof.
  by destruct x.
Qed.

Lemma lookup_union_empty_r (tags : gmap string string) k :
  (tags ∪ ∅) !! k = tags !! k.
Proof. by rewrite (right_id_L ∅ (∪)). Qed.

(** C8: the claim at a session advertising both capabilities: a message
    relayed for a source without an account and without a message
    identifier gets neither tag. *)
Lemma AddFromClient_tags_counterexample :
  Has (demoSession {[AccountTag; MessageTags]}) AccountTag = true
  ∧ Has (demoSession {[AccountTag; MessageTags]}) MessageTags = true
  ∧ map (λ m, (Tags m !! "account", Tags m !! "msgid"))
        (messages (buf (exec (AddFromClient 5 "" bobMask "*" ∅ "PRIVMSG" ["#chan"; "hi"])
                             (fresh (demoSession {[AccountTag; MessageTags]}) ""))))
    = [(None, None)].
Proof. vm_compute. done. Qed.

(** C8, amended: [AddFromClient] sets the account tag exactly when the
    session advertises the account-tag capability and the source account
    is not ["*"], and the message-id tag exactly when the session
    advertises message-tags and the identifier is not empty.  A tag of
    either name in the caller's own tag map is carried over under
    message-tags like any other tag and is what remains when the
    dedicated tag is not set.  The message so built is what is handed to
    [AddMessage], which stores it with these two tags untouched. *)
Theorem AddFromClient_tags time msgid mask account tags command params (st : St) :
  let s := session (buf st) in
  let m := clientMessage s time msgid mask account tags command params in
  AddFromClient time msgid mask account tags command params st = AddMessage m st
  ∧ (finalized (buf st) = false →
     ∃ m', messages (buf (exec (AddFromClient time msgid mask account tags command params)
                               st))
           = messages (buf st) ++ [m']
           ∧ Tags m' !! "account" = Tags m !! "account"
           ∧ Tags m' !! "msgid" = Tags m !! "msgid")
  ∧ Tags m !! "account" =
      (if Has s AccountTag && bool_decide (account ≠ "*") then Some account
       else if Has s MessageTags then tags !! "account" else None)
  ∧ Tags m !! "msgid" =
      (if Has s MessageTags && bool_decide (msgid ≠ "") then Some msgid
       else if Has s MessageTags then tags !! "msgid" else None)
  ∧ (tags !! "account" = None →
     is_Some (Tags m !! "account") ↔ Has s AccountTag = true ∧ account ≠ "*")
  ∧ (tags !! "msgid" = None →
     is_Some (Tags m !! "msgid") ↔ Has s MessageTags = true ∧ msgid ≠ "").
Proof.
  intros s m.
  assert (Hacc : Tags m !! "account" =
                 (if Has s AccountTag && bool_decide (account ≠ "*") then Some account
                  else if Has s MessageTags then tags !! "account" else None)).
  { unfold m, clientMessage. rewrite Tags_setTimeTag by done.
    destruct (Has s MessageTags), (Has s AccountTag), (bool_decide (account ≠ "*")),
      (bool_decide (0 < String.length msgid)); simpl;
      rewrite ?lookup_insert_ne by done; rewrite ?lookup_insert_eq;
      rewrite ?lookup_union_empty_r; done. }
  assert (Hid : Tags m !! "msgid" =
                (if Has s MessageTags && bool_decide (msgid ≠ "") then Some msgid
                 else if Has s MessageTags then tags !! "msgid" else None)).
  { unfold m, clientMessage. rewrite Tags_setTimeTag by done. rewrite nonempty_length.
    destruct (Has s MessageTags), (Has s AccountTag), (bool_decide (account ≠ "*")),
      (bool_decide (msgid ≠ "")); simpl;
      rewrite ?lookup_insert_eq; rewrite ?lookup_insert_ne by done;
      rewrite ?lookup_union_empty_r; done. }
  split; [apply AddFromClient_eq|]. split.
  { intros Hfin. unfold exec. rewrite AddFromClient_queue by done.
    cbn [snd buf messages set_messages]. fold s m.
    exists (queuedForm (buf st) m). by rewrite !Tags_queuedForm. }
  split; [exact Hacc|]. split; [exact Hid|]. split.
  - intros Hnone. rewrite Hacc, Hnone. clear Hacc Hid.
    destruct (Has s AccountTag), (Has s MessageTags),
      (bool_decide_reflect (account ≠ "*")); simpl;
      (split; [intros [x Hx] | intros [H1 H2]]); simplify_eq; try done; eauto.
  - intros Hnone. rewrite Hid, Hnone. clear Hacc Hid.
    destruct (Has s MessageTags), (bool_decide_reflect (msgid ≠ "")); simpl;
      (split; [intros [x Hx] | intros [H1 H2]]); simplify_eq; try done; eauto.
Qed.

Lemma AddFromClient_tags_witness :
  finalized (buf nestedSt) = false
  ∧ (∅ : gmap string string) !! "account" = None
  ∧ map (λ m, (Tags m !! "account", Tags m !! "msgid", Tags m !! "batch"))
        (messages (buf (exec (AddFromClient 5 "id9" bobMask "bob" ∅ "PRIVMSG" ["#chan"; "hi"])
                             (fresh (demoSession {[AccountTag; MessageTags]}) ""))))
    = [(Some "bob", Some "id9", None)]
  ∧ ∃ m',
      messages (buf (exec (AddFromClient 5 "id9" bobMask "bob" ∅ "PRIVMSG" ["#chan"; "hi"])
                          nestedSt))
        = messages (buf nestedSt) ++ [m'].
Proof.
  split; [reflexivity|]. split; [reflexivity|]. split; [by vm_compute|].
  destruct (AddFromClient_tags 5 "id9" bobMask "bob" ∅ "PRIVMSG" ["#chan"; "hi"] nestedSt)
    as (_ & Hqueue & _).
  destruct (Hqueue eq_refl) as (m' & Hm' & _).
  exists m'. exact Hm'.
Defined.

Lemma forEach_AddFromClient (t : Time) mask account tags command target
    (frags : list MessagePair) (st : St) :
  finalized (buf st) = false →
  forEach frags (λ messagePair,
     AddFromClient t (mp_Msgid messagePair) mask account tags command
                   [target; mp_Message messagePair]) st =
    ((), {| buf := set_messages
                     (messages (buf st) ++
                        map (λ p, queuedForm (buf st)
                                    (clientMessage (session (buf st)) t (mp_Msgid p) mask
                                                   account tags command
                                                   [target; mp_Message p]))
                            frags)
                     (buf st);
            world := world st |}).
Proof.
  revert st. induction frags as [|p frags IH]; intros st Hfin.
  - simpl. unfold ret, set_messages. rewrite app_nil_r, buf_eta. by destruct st.
  - cbn [forEach]. rewrite bind_run. unfold exec. rewrite AddFromClient_queue by done.
    cbn [snd]. rewrite IH by done. cbn [buf world set_messages messages session
                                         nestedBatches map].
    unfold queuedForm. cbn [nestedBatches set_messages]. by rewrite <- app_assoc.
Qed.

(** C9: the time tag of a relayed fragment is not a property of the
    fragment.  The same two fragments relayed as parts of a message of
    time 100 and of a message of time 200 are queued with the time tags
    of those messages, so no assignment of a timestamp to each fragment
    describes what is queued. *)
Lemma AddSplitMessageFromClient_time_counterexample :
  map (λ m, Tags m !! "time")
      (messages (buf (exec (AddSplitMessageFromClient bobMask "bob" ∅ "PRIVMSG" "#chan"
                                                      (splitAt 100))
                           (fresh (demoSession {[ServerTime]}) ""))))
    = [Some "T100"; Some "T100"]
  ∧ map (λ m, Tags m !! "time")
      (messages (buf (exec (AddSplitMessageFromClient bobMask "bob" ∅ "PRIVMSG" "#chan"
                                                      (splitAt 200))
                           (fresh (demoSession {[ServerTime]}) ""))))
    = [Some "T200"; Some "T200"]
  ∧ ¬ ∃ own : MessagePair → Time,
        ∀ message frags,
          Wrapped message = Some frags →
          messages (buf (exec (AddSplitMessageFromClient bobMask "bob" ∅ "PRIVMSG" "#chan"
                                                         message)
                              (fresh (demoSession {[ServerTime]}) "")))
          = map (λ p, clientMessage (demoSession {[ServerTime]}) (own p) (mp_Msgid p)
                                    bobMask "bob" ∅ "PRIVMSG" ["#chan"; mp_Message p])
                frags.
Proof.
  split; [by vm_compute|]. split; [by vm_compute|].
  intros [own Hown].
  pose proof (Hown (splitAt 100) twoFragments eq_refl) as H1.
  pose proof (Hown (splitAt 200) twoFragments eq_refl) as H2.
  rewrite <- H2 in H1.
  apply (f_equal (map (λ m, Tags m !! "time"))) in H1.
  vm_compute in H1. discriminate.
Qed.

(** C9, amended: with long lines supported or an unsplit input the call
    is one [AddFromClient] of the whole message; otherwise it is one
    [AddFromClient] per fragment, in order, each with the fragment's own
    text and message-id and with the timestamp of the whole message, which
    all fragments share.  On a buffer that is not finalized that queues
    one message, respectively one message per fragment. *)
Theorem AddSplitMessageFromClient_fragments mask account tags command target
    (message : SplitMessage) (st : St) :
  let s := session (buf st) in
  let st' := exec (AddSplitMessageFromClient mask account tags command target message) st in
  (Has s MaxLine = true ∨ Wrapped message = None →
   AddSplitMessageFromClient mask account tags command target message st
     = AddFromClient (sm_Time message) (sm_Msgid message) mask account tags command
                     [target; sm_Message message] st
   ∧ (finalized (buf st) = false →
      messages (buf st') =
        messages (buf st) ++
          [queuedForm (buf st)
             (clientMessage s (sm_Time message) (sm_Msgid message) mask account tags
                            command [target; sm_Message message])]))
  ∧ (∀ frags, Has s MaxLine = false → Wrapped message = Some frags →
     AddSplitMessageFromClient mask account tags command target message st
       = forEach frags (λ p,
           AddFromClient (sm_Time message) (mp_Msgid p) mask account tags command
                         [target; mp_Message p]) st
     ∧ (finalized (buf st) = false →
        messages (buf st') =
          messages (buf st) ++
            map (λ p, queuedForm (buf st)
                        (clientMessage s (sm_Time message) (mp_Msgid p) mask account tags
                                       command [target; mp_Message p]))
                frags)).
Proof.
  intros s st'. subst st'. unfold exec, AddSplitMessageFromClient.
  rewrite bind_run. change (result getBuf st) with (buf st).
  change (exec getBuf st) with st. fold s. split.
  - intros Hone.
    assert (Has s MaxLine || bool_decide (Wrapped message = None) = true) as ->.
    { destruct Hone as [-> | ->]; [done | apply orb_true_r]. }
    split; [done|]. intros Hfin. by rewrite AddFromClient_queue.
  - intros frags Hmax Hwrapped. rewrite Hwrapped, Hmax. cbn [orb default].
    rewrite bool_decide_eq_false_2 by done. split; [done|].
    intros Hfin. by rewrite forEach_AddFromClient.
Qed.

Lemma AddSplitMessageFromClient_fragments_witness :
  Has (session (buf nestedSt)) MaxLine = false
  ∧ Wrapped (splitAt 100) = Some twoFragments
  ∧ finalized (buf nestedSt) = false
  ∧ length (messages (buf (exec (AddSplitMessageFromClient bobMask "bob" ∅ "PRIVMSG" "#chan"
                                                           (splitAt 100)) nestedSt)))
    = 3.
Proof.
  split; [reflexivity|]. split; [reflexivity|]. split; [reflexivity|].
  rewrite (proj2 (proj2 (AddSplitMessageFromClient_fragments bobMask "bob" ∅ "PRIVMSG"
                           "#chan" (splitAt 100) nestedSt)
                    twoFragments eq_refl eq_refl) eq_refl).
  reflexivity.
Defined.

(** ** What a flush returns *)

(** C2: on a session whose socket is closed the only transmission of a
    terminal flush fails, and the flush still returns nil. *)
Lemma flush_error_counterexample :
  finalized (buf closedSt) = false
  ∧ map t_result (drop (length (sent (world closedSt)))
                       (sent (world (exec (Send true) closedSt))))
    = [Some "use of closed connection"]
  ∧ result (Send true) closedSt = None.
Proof. vm_compute. done. Qed.

(** C2, amended: a flush never returns an error.  Whatever the session's
    [SendRawMessage] returned for the lines of the flush, terminal or not,
    the result of the flush is nil; the errors are dropped. *)
Theorem flushInternal_returns_nil (final blocking : bool) (st : St) :
  result (flushInternal final blocking) st = None
  ∧ result (Send blocking) st = None
  ∧ result (Flush blocking) st = None.
Proof.
  unfold Send, Flush, result. by rewrite !flushInternal_eq.
Qed.

(** ** The label on a forced batch *)

(** C7: the code at a session that did not negotiate labeled-response
    (it only has the batch capability) but whose request carried a label:
    the open line of a forced batch is transmitted with the label tag. *)
Theorem ForceBatchStart_labels_without_capability :
  Has (demoSession {[Batch]}) LabeledResponse = false
  ∧ map (λ t, (Command (t_msg t), Params (t_msg t), Tags (t_msg t) !! LabelTagName))
        (sent (world (exec (ForceBatchStart "chathistory" true)
                           (fresh (demoSession {[Batch]}) "abc123"))))
    = [("BATCH", ["+tok0"; "chathistory"], Some "abc123")]
  ∧ map (λ t, (Command (t_msg t), Params (t_msg t), Tags (t_msg t) !! LabelTagName))
        (sent (world (exec (let* _ := ForceBatchStart "chathistory" true in
                            let* _ := AddMessage (privmsg "hi") in
                            Send true)
                           (fresh (demoSession {[Batch]}) "abc123"))))
    = [("BATCH", ["+tok0"; "chathistory"], Some "abc123");
       ("PRIVMSG", ["#chan"; "hi"], None);
       ("BATCH", ["-tok0"], None)].
Proof. vm_compute. done. Qed.

(** ** What a flush transmits *)

Lemma sentBy_app {A} (m : M A) (st : St) (ts : list Transmission) :
  sent (world (exec m st)) = sent (world st) ++ ts →
  sentBy m st = map t_msg ts.
Proof.
  intros H. unfold sentBy, sentSince. by rewrite H, drop_app_length.
Qed.

Lemma map_wire s blocking (ms : list IrcMessage) :
  map t_msg (map (wire s blocking) ms) = ms.
Proof. induction ms; simpl; congruence. Qed.

Lemma afterDecision_finalized final blocking st :
  finalized (buf (afterDecision final blocking st)) = finalized (buf st).
Proof.
  unfold afterDecision, exec. rewrite sendBatchStart_eq.
  repeat match goal with |- context [if ?b then _ else _] => destruct b end; done.
Qed.

(** The lines of one flush, in order: what the framing decision sent,
    the queue as it stands after that decision, and the close line. *)
Lemma flushInternal_sent (final blocking : bool) (st : St) :
  finalized (buf st) = false →
  let s := session (buf st) in
  let st1 := afterDecision final blocking st in
  sent (world (exec (flushInternal final blocking) st)) =
    sent (world st1)
      ++ map (wire s blocking) (map (outgoing s (batchID (buf st1))) (messages (buf st1)))
      ++ (if final && bool_decide (batchID (buf st1) ≠ "")
          then [wire s blocking (batchCloseLine (buf st) (batchID (buf st1)))] else [])
  ∧ batchID (buf (exec (flushInternal final blocking) st)) = batchID (buf st1)
  ∧ finalized (buf (exec (flushInternal final blocking) st)) = final
  ∧ messages (buf (exec (flushInternal final blocking) st)) = [].
Proof.
  intros Hfin s st1. unfold exec at 1 2 3 4. rewrite flushInternal_eq, Hfin. cbn [snd].
  fold st1. pose proof (afterDecision_session final blocking st) as Hs. fold st1 in Hs.
  unfold afterClose, afterQueue, exec. rewrite sendBatchEnd_eq.
  cbn [buf world snd sent transmitted]. rewrite Hs. fold s.
  unfold batchCloseLine. fold s. rewrite map_map.
  destruct final; cbn [andb].
  - destruct (decide (batchID (buf st1) = "")) as [He|Hne].
    + rewrite (bool_decide_eq_true_2 _ He), bool_decide_eq_false_2 by (by intros ?).
      cbn. rewrite app_nil_r. repeat split; try done.
    + rewrite (bool_decide_eq_false_2 _ Hne), (bool_decide_eq_true_2 _ Hne).
      cbn. rewrite <- app_assoc. repeat split; try done.
  - cbn. rewrite app_nil_r. repeat split; try done.
    pose proof (afterDecision_finalized false blocking st) as Hf. fold st1 in Hf. congruence.
Qed.

Lemma HasTag_lookup k m : HasTag k m = bool_decide (is_Some (Tags m !! k)).
Proof.
  unfold HasTag, GetTag. by destruct (Tags m !! k).
Qed.

Lemma setTimeTag_shape s m t :
  Prefix (setTimeTag s m t) = Prefix m
  ∧ Command (setTimeTag s m t) = Command m
  ∧ Params (setTimeTag s m t) = Params m.
Proof.
  unfold setTimeTag. destruct (Has s ServerTime); [|done].
  by destruct (timeTagValue s m t).
Qed.

Lemma outgoing_shape s id m :
  Prefix (outgoing s id m) = Prefix m
  ∧ Command (outgoing s id m) = Command m
  ∧ Params (outgoing s id m) = Params m.
Proof.
  unfold outgoing. destruct (setTimeTag_shape s m zeroTime) as (?&?&?).
  by destruct (_ && _).
Qed.

Lemma outgoing_batch_tag s id m :
  Tags (outgoing s id m) !! "batch" =
    match Tags m !! "batch" with
    | Some b => Some b
    | None => if bool_decide (id ≠ "") then Some id else None
    end.
Proof.
  unfold outgoing. rewrite HasTag_lookup, Tags_setTimeTag by done.
  destruct (Tags m !! "batch") as [b|] eqn:E.
  - rewrite (bool_decide_eq_true_2 (is_Some _)) by eauto. cbn [negb].
    rewrite andb_false_r. by rewrite Tags_setTimeTag.
  - rewrite (bool_decide_eq_false_2 (is_Some _)) by (by intros [? ?]). cbn [negb].
    rewrite andb_true_r. destruct (bool_decide (id ≠ "")); simpl.
    + by rewrite lookup_insert_eq.
    + by rewrite Tags_setTimeTag.
Qed.

Lemma outgoing_other_tag s id m k :
  k ≠ "batch" → k ≠ "time" → Tags (outgoing s id m) !! k = Tags m !! k.
Proof.
  intros Hb Ht. unfold outgoing. destruct (_ && _); simpl.
  - rewrite lookup_insert_ne by done. by rewrite Tags_setTimeTag.
  - by rewrite Tags_setTimeTag.
Qed.

Lemma outgoing_no_batch s m : outgoing s "" m = setTimeTag s m zeroTime.
Proof. unfold outgoing. by rewrite bool_decide_eq_false_2 by auto. Qed.

Lemma sendBatchStart_sent blocking st :
  exec (sendBatchStart blocking) st =
    if bool_decide (batchID (buf st) ≠ "") then st
    else
      let id := rand (world st) (drawn (world st)) in
      {| buf := set_batchID id (buf st);
         world := transmitted [wire (session (buf st)) blocking (batchOpenLine (buf st) id)]
                              (advanced (world st)) |}.
Proof. unfold exec. by rewrite sendBatchStart_eq. Qed.

(** C1: the claim in a buffer that replayed a nested batch.  The request
    is labelled, the capability is there and three lines are queued; the
    terminal flush opens the batch [tok1], yet the queued PRIVMSG goes out
    tagged with the nested batch [tok0], not with the batch identifier.
    Two more buffers with the label set and the capability there: one
    whose batch was opened by an earlier non-terminal flush, where the
    terminal flush of two queued lines transmits no open line; and one
    that is finalized already, with nothing queued and no batch open,
    where the terminal flush transmits nothing, no ACK either. *)
Lemma Send_label_degradation_counterexample :
  (Has (session (buf replayedSt)) LabeledResponse = true
   ∧ Label (buf replayedSt) = "abc123"
   ∧ finalized (buf replayedSt) = false
   ∧ length (messages (buf replayedSt)) = 3
   ∧ batchID (buf (exec (Send true) replayedSt)) = "tok1"
   ∧ map (λ m, (Command m, Params m, Tags m !! "batch"))
         (sentBy (Send true) replayedSt)
     = [("BATCH", ["+tok1"; "draft/labeled-response"], None);
        ("BATCH", ["+tok0"; "history"; "#chan"], Some "tok1");
        ("PRIVMSG", ["#chan"; "hi"], Some "tok0");
        ("BATCH", ["-tok0"], Some "tok1");
        ("BATCH", ["-tok1"], None)])
  ∧ (Has (session (buf flushedSt)) LabeledResponse = true
     ∧ Label (buf flushedSt) = "abc123"
     ∧ finalized (buf flushedSt) = false
     ∧ length (messages (buf flushedSt)) = 2
     ∧ map (λ m, (Command m, Params m, Tags m !! "batch"))
           (sentBy (Send true) flushedSt)
       = [("PRIVMSG", ["#chan"; "more"], Some "tok0");
          ("PRIVMSG", ["#chan"; "last"], Some "tok0");
          ("BATCH", ["-tok0"], None)])
  ∧ (Has (session (buf ackedSt)) LabeledResponse = true
     ∧ Label (buf ackedSt) = "abc123"
     ∧ messages (buf ackedSt) = []
     ∧ batchID (buf ackedSt) = ""
     ∧ sentBy (Send true) ackedSt = []).
Proof. vm_compute. done. Qed.

(** C1, amended: on a buffer that is not finalized, with the label set
    and the capability advertised, a terminal flush transmits
    - with an empty queue and no batch open: exactly the ACK line, carrying
      the label tag;
    - with one queued message and no batch open: exactly that message,
      carrying the label tag, and no framing line;
    - with two or more queued messages: the batch-open line (unless the
      batch was opened before), then every queued message, then the
      batch-close line; a queued message that has no batch tag yet goes
      out tagged with the batch identifier, one that has a batch tag (a
      member of a nested batch) keeps it, and the flush leaves the label
      tag of every queued message as it was. *)
Theorem Send_label_degradation (blocking : bool) (st : St) :
  let r := buf st in
  let s := session r in
  finalized r = false → Has s LabeledResponse = true → Label r ≠ "" →
  (messages r = [] → batchID r = "" →
     sentBy (Send blocking) st = [ackMessage r]
     ∧ Command (ackMessage r) = "ACK"
     ∧ Tags (ackMessage r) !! LabelTagName = Some (Label r))
  ∧ (∀ m, messages r = [m] → batchID r = "" →
     ∃ m', sentBy (Send blocking) st = [m']
           ∧ Prefix m' = Prefix m ∧ Command m' = Command m ∧ Params m' = Params m
           ∧ Tags m' !! LabelTagName = Some (Label r)
           ∧ Tags m' !! "batch" = Tags m !! "batch")
  ∧ ((2 ≤ length (messages r))%nat →
     let id := if bool_decide (batchID r = "")
               then rand (world st) (drawn (world st)) else batchID r in
     id ≠ "" →
     batchID (buf (exec (Send blocking) st)) = id
     ∧ sentBy (Send blocking) st =
         (if bool_decide (batchID r = "") then [batchOpenLine r id] else [])
           ++ map (outgoing s id) (messages r)
           ++ [batchCloseLine r id]
     ∧ Forall (λ m,
          Tags (outgoing s id m) !! "batch" = Some (default id (Tags m !! "batch"))
          ∧ Tags (outgoing s id m) !! LabelTagName = Tags m !! LabelTagName
          ∧ Command (outgoing s id m) = Command m
          ∧ Params (outgoing s id m) = Params m)
         (messages r)).
Proof.
  intros r s Hfin Hcap Hlabel. unfold Send.
  pose proof (flushInternal_sent true blocking st Hfin) as Hflush.
  cbv zeta in Hflush. fold r s in Hflush.
  assert (Huse : Has s LabeledResponse && bool_decide (Label r ≠ "") = true).
  { by rewrite Hcap, bool_decide_eq_true_2. }
  split; [|split].
  - intros Hq Hid.
    assert (afterDecision true blocking st =
              {| buf := r; world := transmitted [wire s blocking (ackMessage r)] (world st) |})
      as Hdec.
    { unfold afterDecision. fold r s. rewrite Huse, Hq, Hid. reflexivity. }
    rewrite Hdec in Hflush. cbn [buf world sent transmitted] in Hflush.
    rewrite Hq, Hid in Hflush. cbn in Hflush. destruct Hflush as (Hsent & _).
    rewrite app_nil_r in Hsent. split; [by rewrite (sentBy_app _ _ _ Hsent)|].
    unfold ackMessage. destruct (setTimeTag_shape s
      (SetTag LabelTagName (Label r) (MakeMessage ∅ (serverName s) "ACK" [])) zeroTime)
      as (_ & Hc & _).
    split; [exact Hc|]. rewrite Tags_setTimeTag by done. simpl.
    by rewrite lookup_insert_eq.
  - intros m Hq Hid.
    assert (afterDecision true blocking st =
              {| buf := set_messages [SetTag LabelTagName (Label r) m] r;
                 world := world st |}) as Hdec.
    { unfold afterDecision. fold r s. rewrite Huse, Hq, Hid. reflexivity. }
    rewrite Hdec in Hflush. cbn [buf world sent set_messages messages batchID] in Hflush.
    rewrite Hid in Hflush. cbn in Hflush. destruct Hflush as (Hsent & _).
    eexists. split; [by rewrite (sentBy_app _ _ _ Hsent)|].
    cbn [t_msg wire]. rewrite ?outgoing_no_batch.
    destruct (setTimeTag_shape s (SetTag LabelTagName (Label r) m) zeroTime)
      as (Hp & Hc & Hps).
    rewrite Hp, Hc, Hps, !Tags_setTimeTag by done. simpl.
    rewrite lookup_insert_eq, lookup_insert_ne by done. done.
  - intros Hlen Hid.
    assert (afterDecision true blocking st = exec (sendBatchStart blocking) st) as Hdec.
    { unfold afterDecision. fold r s. rewrite Huse.
      rewrite (bool_decide_eq_true_2 (1 < _)) by lia. reflexivity. }
    rewrite Hdec, sendBatchStart_sent in Hflush. fold r s in Hflush.
    destruct (decide (batchID r = "")) as [He|Hne].
    + rewrite (bool_decide_eq_true_2 _ He) in *.
      rewrite bool_decide_eq_false_2 in Hflush by (by intros ?).
      cbn [buf world sent set_batchID transmitted advanced batchID messages] in Hflush.
      rewrite (bool_decide_eq_true_2 _ Hid) in Hflush. cbn [andb] in Hflush.
      destruct Hflush as (Hsent & Hb & _). rewrite <- app_assoc in Hsent.
      split; [exact Hb|]. split.
      * rewrite (sentBy_app _ _ _ Hsent). rewrite !map_app, map_wire. done.
      * apply Forall_forall. intros m _. destruct (outgoing_shape s
          (rand (world st) (drawn (world st))) m) as (_ & Hc & Hp).
        rewrite outgoing_batch_tag, outgoing_other_tag, (bool_decide_eq_true_2 _ Hid)
          by done.
        by destruct (Tags m !! "batch").
    + rewrite (bool_decide_eq_false_2 _ Hne) in *.
      unfold r in Hne. rewrite !(bool_decide_eq_true_2 _ Hne) in Hflush.
      cbn [andb] in Hflush. destruct Hflush as (Hsent & Hb & _).
      split; [exact Hb|]. split.
      * rewrite (sentBy_app _ _ _ Hsent). rewrite !map_app, map_wire. done.
      * apply Forall_forall. intros m _. destruct (outgoing_shape s (batchID r) m)
          as (_ & Hc & Hp).
        rewrite outgoing_batch_tag, outgoing_other_tag, (bool_decide_eq_true_2 _ Hne)
          by done.
        by destruct (Tags m !! "batch").
Qed.

Lemma Send_label_degradation_witness :
  finalized (buf twoQueuedSt) = false
  ∧ Has (session (buf twoQueuedSt)) LabeledResponse = true
  ∧ Label (buf twoQueuedSt) ≠ ""
  ∧ map (λ m, (Command m, Tags m !! "batch", Tags m !! LabelTagName))
        (sentBy (Send true) twoQueuedSt)
    = [("BATCH", None, Some "abc123");
       ("PRIVMSG", Some "tok0", None);
       ("PRIVMSG", Some "tok0", None);
       ("BATCH", None, None)].
Proof.
  split; [reflexivity|]. split; [reflexivity|]. split; [discriminate|].
  destruct (Send_label_degradation true twoQueuedSt eq_refl eq_refl ltac:(discriminate))
    as (_ & _ & Hbatch).
  destruct Hbatch as (_ & Hsent & _); [vm_compute; lia | discriminate |].
  rewrite Hsent. vm_compute. reflexivity.
Defined.

(** ** Sequences of calls *)

Lemma exec_bind {A B} (m : M A) (k : A → M B) (st : St) :
  exec (bind m k) st = exec (k (result m st)) (exec m st).
Proof. unfold exec at 1. by rewrite bind_run. Qed.

Lemma exec_discard {A} (m : M A) (st : St) : exec (discard m) st = exec m st.
Proof. unfold discard. by rewrite exec_bind. Qed.

Lemma calls_cons op ops st : exec (calls (op :: ops)) st = exec (calls ops) (exec (call op) st).
Proof. unfold calls. cbn [forEach]. by rewrite exec_bind. Qed.

Lemma calls_nil st : exec (calls []) st = st.
Proof. done. Qed.

Lemma sameFrame_trans r1 r2 r3 : sameFrame r1 r2 → sameFrame r2 r3 → sameFrame r1 r3.
Proof. unfold sameFrame. intros (?&?&?) (?&?&?). repeat split; congruence. Qed.

Lemma sameFrame_AddMessage msg st : sameFrame (buf st) (buf (exec (AddMessage msg) st)).
Proof.
  unfold exec. rewrite AddMessage_eq. by destruct (finalized (buf st)).
Qed.

Lemma sameFrame_AddFromClient time msgid mask account tags command params st :
  sameFrame (buf st)
            (buf (exec (AddFromClient time msgid mask account tags command params) st)).
Proof. unfold exec. rewrite AddFromClient_eq. apply sameFrame_AddMessage. Qed.

Lemma sameFrame_forEach {A} (l : list A) (body : A → M unit) :
  (∀ x st, sameFrame (buf st) (buf (exec (body x) st))) →
  ∀ st, sameFrame (buf st) (buf (exec (forEach l body) st)).
Proof.
  intros Hbody. induction l as [|x l IH]; intros st; [done|].
  cbn [forEach]. rewrite exec_bind. eapply sameFrame_trans; [apply Hbody | apply IH].
Qed.

Lemma sameFrame_AddSplitMessageFromClient mask account tags command target message st :
  sameFrame (buf st)
    (buf (exec (AddSplitMessageFromClient mask account tags command target message) st)).
Proof.
  unfold AddSplitMessageFromClient. rewrite exec_bind.
  change (exec getBuf st) with st. destruct (_ || _).
  - apply sameFrame_AddFromClient.
  - apply sameFrame_forEach. intros. apply sameFrame_AddFromClient.
Qed.

Lemma sameFrame_Broadcast tags prefix command params st :
  sameFrame (buf st) (buf (exec (Broadcast tags prefix command params) st)).
Proof.
  unfold Broadcast. rewrite exec_bind.
  apply (sameFrame_trans _ (buf (exec (Add tags prefix command params) st)));
    [apply sameFrame_AddMessage|].
  rewrite exec_bind. apply sameFrame_forEach.
  intros peer st'. by case_bool_decide.
Qed.

Lemma StartNestedBatch_eq batchType params st :
  StartNestedBatch batchType params st =
    (rand (world st) (drawn (world st)),
     let st1 := exec (AddMessage
                        (MakeMessage ∅ (serverName (session (buf st))) "BATCH"
                           (("+" +:+ rand (world st) (drawn (world st)))
                              :: batchType :: params)))
                     {| buf := buf st; world := advanced (world st) |} in
     {| buf := set_nestedBatches
                 (nestedBatches (buf st1) ++ [rand (world st) (drawn (world st))]) (buf st1);
        world := world st1 |}).
Proof.
  unfold StartNestedBatch. rewrite bind_run.
  change (result GenerateSecretToken st) with (rand (world st) (drawn (world st))).
  change (exec GenerateSecretToken st)
    with {| buf := buf st; world := advanced (world st) |}.
  rewrite bind_run. cbn [result exec getBuf fst snd buf].
  rewrite bind_run. rewrite bind_run. reflexivity.
Qed.

Lemma sameFrame_StartNestedBatch batchType params st :
  sameFrame (buf st) (buf (exec (StartNestedBatch batchType params) st)).
Proof.
  unfold exec at 1. rewrite StartNestedBatch_eq. cbn [snd buf].
  match goal with |- context [exec (AddMessage ?m) ?s0] =>
    pose proof (sameFrame_AddMessage m s0) as H end.
  cbn [buf] in H. destruct H as (?&?&?). by repeat split.
Qed.

Lemma sameFrame_EndNestedBatch id st :
  sameFrame (buf st) (buf (exec (EndNestedBatch id) st)).
Proof.
  unfold EndNestedBatch. case_bool_decide; [done|].
  rewrite exec_bind. change (exec getBuf st) with st.
  change (result getBuf st) with (buf st).
  destruct (_ || _); [done|].
  rewrite exec_bind.
  match goal with |- context [exec (AddMessage ?m) ?s0] =>
    pose proof (sameFrame_AddMessage m s0) as Hadd end.
  eapply sameFrame_trans; [|exact Hadd]. done.
Qed.

Lemma sameFrame_StartNestedHistoryBatch params st :
  sameFrame (buf st) (buf (exec (StartNestedHistoryBatch params) st)).
Proof.
  unfold StartNestedHistoryBatch. rewrite exec_bind. change (exec getBuf st) with st.
  case_bool_decide; [apply sameFrame_StartNestedBatch | done].
Qed.

Lemma keepsBatch_trans r1 r2 r3 : keepsBatch r1 r2 → keepsBatch r2 r3 → keepsBatch r1 r3.
Proof.
  unfold keepsBatch. intros (Hs1 & Hb1) (Hs2 & Hb2). split; [congruence|].
  intros Hset. rewrite Hb2; rewrite Hb1; auto.
Qed.

Lemma keepsBatch_sendBatchStart blocking st :
  keepsBatch (buf st) (buf (exec (sendBatchStart blocking) st))
  ∧ finalized (buf (exec (sendBatchStart blocking) st)) = finalized (buf st).
Proof.
  rewrite sendBatchStart_sent. case_bool_decide as Hset; [done|].
  split; [|done]. split; [done|]. intros Hne. by destruct Hset.
Qed.

Lemma keepsBatch_afterDecision final blocking st :
  keepsBatch (buf st) (buf (afterDecision final blocking st)).
Proof.
  unfold afterDecision.
  repeat match goal with |- context [if ?b then _ else _] => destruct b end;
    try done; apply keepsBatch_sendBatchStart.
Qed.

Lemma keepsBatch_flushInternal final blocking st :
  keepsBatch (buf st) (buf (exec (flushInternal final blocking) st))
  ∧ finalized (buf (exec (flushInternal final blocking) st)) = finalized (buf st) || final.
Proof.
  destruct (finalized (buf st)) eqn:Hfin.
  - unfold exec. rewrite flushInternal_eq, Hfin. cbn [snd]. by rewrite Hfin.
  - destruct (flushInternal_sent final blocking st Hfin) as (_ & Hb & Hf & _).
    rewrite Hf. split; [|done].
    destruct (keepsBatch_afterDecision final blocking st) as (Hs & Hk).
    split; [|by rewrite Hb].
    unfold exec. rewrite flushInternal_eq, Hfin. cbn [snd buf set_messages session].
    unfold afterClose, afterQueue, exec. rewrite sendBatchEnd_eq.
    destruct final; [case_bool_decide|]; exact Hs.
Qed.

(** Whatever is called on the buffer, its session stays and an identifier
    of the top-level batch, once set, stays; only [Send] finalizes. *)
Lemma call_frame (op : Op) (st : St) :
  keepsBatch (buf st) (buf (exec (call op) st))
  ∧ (nonTerminal op → finalized (buf (exec (call op) st)) = finalized (buf st))
  ∧ (finalized (buf st) = true → finalized (buf (exec (call op) st)) = true).
Proof.
  assert (Hsame : ∀ r', sameFrame (buf st) r' →
            keepsBatch (buf st) r'
            ∧ (nonTerminal op → finalized r' = finalized (buf st))
            ∧ (finalized (buf st) = true → finalized r' = true)).
  { intros r' (?&?&?). repeat split; auto; congruence. }
  destruct op; cbn [call]; rewrite ?exec_discard.
  - by apply Hsame.
  - apply Hsame, sameFrame_AddMessage.
  - apply Hsame, sameFrame_AddMessage.
  - apply Hsame, sameFrame_Broadcast.
  - apply Hsame, sameFrame_AddFromClient.
  - apply Hsame, sameFrame_AddSplitMessageFromClient.
  - unfold ForceBatchStart. rewrite exec_bind.
    match goal with |- context [exec (sendBatchStart _) ?s0] =>
      destruct (keepsBatch_sendBatchStart blocking s0) as (Hk & Hf) end.
    cbn [exec modifyBuf snd buf set_batchType session batchID finalized] in *.
    rewrite Hf. repeat split; auto; apply Hk.
  - destruct (keepsBatch_sendBatchStart blocking st) as (Hk & Hf).
    rewrite Hf. repeat split; auto; apply Hk.
  - apply Hsame. unfold exec. rewrite sendBatchEnd_eq. by case_bool_decide.
  - apply Hsame, sameFrame_StartNestedBatch.
  - apply Hsame, sameFrame_EndNestedBatch.
  - apply Hsame, sameFrame_StartNestedHistoryBatch.
  - destruct (keepsBatch_flushInternal true blocking st) as (Hk & Hf).
    unfold Send. rewrite Hf. split; [exact Hk|]. split; [done|]. by rewrite orb_true_r.
  - destruct (keepsBatch_flushInternal false blocking st) as (Hk & Hf).
    unfold Flush. rewrite Hf, orb_false_r. split; [exact Hk|]. by split.
  - apply Hsame. unfold Notice. rewrite exec_bind. apply sameFrame_AddMessage.
Qed.

Lemma calls_frame (ops : list Op) (st : St) :
  keepsBatch (buf st) (buf (exec (calls ops) st))
  ∧ (Forall nonTerminal ops →
     finalized (buf (exec (calls ops) st)) = finalized (buf st)).
Proof.
  revert st. induction ops as [|op ops IH]; intros st.
  - rewrite calls_nil. by split.
  - rewrite calls_cons. destruct (call_frame op st) as (Hk & Hf & _).
    destruct (IH (exec (call op) st)) as (Hk' & Hf'). split.
    + eapply keepsBatch_trans; eauto.
    + intros Hall. inversion Hall; subst. rewrite Hf' by done. auto.
Qed.

(** ** The non-terminal flush *)

Lemma afterDecision_Flush blocking st :
  afterDecision false blocking st =
    if Has (session (buf st)) LabeledResponse && bool_decide (Label (buf st) ≠ "")
    then exec (sendBatchStart blocking) st else st.
Proof.
  unfold afterDecision. cbn [negb].
  rewrite orb_true_r, andb_true_r, !andb_false_r. reflexivity.
Qed.

Lemma afterDecision_sent final blocking st :
  ∃ ts, sent (world (afterDecision final blocking st)) = sent (world st) ++ ts.
Proof.
  unfold afterDecision. rewrite sendBatchStart_sent.
  repeat match goal with |- context [if ?b then _ else _] => destruct b end;
    cbn [world sent transmitted advanced]; eauto; exists []; by rewrite app_nil_r.
Qed.

(** The last line of a terminal flush on a buffer whose batch is open. *)
Lemma Send_closes blocking st :
  finalized (buf st) = false → batchID (buf st) ≠ "" →
  last (sentBy (Send blocking) st) = Some (batchCloseLine (buf st) (batchID (buf st))).
Proof.
  intros Hfin Hset. unfold Send.
  destruct (flushInternal_sent true blocking st Hfin) as (Hsent & _).
  destruct (keepsBatch_afterDecision true blocking st) as (_ & Hk).
  rewrite (Hk Hset) in Hsent. rewrite (bool_decide_eq_true_2 _ Hset) in Hsent.
  destruct (afterDecision_sent true blocking st) as [ts Hts].
  rewrite Hts, <- app_assoc in Hsent.
  rewrite (sentBy_app _ _ _ Hsent). cbn [andb]. rewrite !map_app.
  rewrite !app_assoc. cbn [map]. by rewrite last_snoc.
Qed.

(** C6: the claim on a buffer that holds the two framing lines of a
    nested batch: the non-terminal flush transmits the queued close line
    of the nested batch. *)
Lemma Flush_batch_close_counterexample :
  finalized (buf closedNestedSt) = false
  ∧ map (λ m, (Command m, Params m)) (sentBy (Flush true) closedNestedSt)
    = [("BATCH", ["+tok0"; "history"; "#chan"]); ("BATCH", ["-tok0"])].
Proof. vm_compute. done. Qed.

(** C6, amended: a non-terminal flush never changes the finalized flag
    and produces no batch-close line of its own.  What it transmits is at
    most one open line of the top-level batch followed by the queued
    messages, so a close line goes out only if it was queued (the close of
    a nested batch).  If the flush opened the top-level batch, then the
    next terminal flush, whatever is enqueued or flushed non-terminally in
    between, ends with the close line for that same identifier. *)
Theorem Flush_keeps_batch_open (blocking : bool) (st : St) :
  let r := buf st in
  let s := session r in
  let st' := exec (Flush blocking) st in
  finalized (buf st') = finalized r
  ∧ (∃ opening,
       sentBy (Flush blocking) st =
         opening ++ map (outgoing s (batchID (buf st')))
                        (if finalized r then [] else messages r)
       ∧ (opening = []
          ∨ batchID r = "" ∧ opening = [batchOpenLine r (batchID (buf st'))]))
  ∧ (∀ m, m ∈ sentBy (Flush blocking) st → isBatchClose m →
       ∃ q, q ∈ messages r ∧ Command q = Command m ∧ Params q = Params m)
  ∧ (batchID r = "" → batchID (buf st') ≠ "" →
     ∀ ops blocking', Forall nonTerminal ops →
       last (sentBy (Send blocking') (exec (calls ops) st'))
       = Some (batchCloseLine r (batchID (buf st')))).
Proof.
  intros r s st'.
  assert (Hshape : finalized (buf st') = finalized r
    ∧ ∃ opening,
        sentBy (Flush blocking) st =
          opening ++ map (outgoing s (batchID (buf st')))
                         (if finalized r then [] else messages r)
        ∧ (opening = []
           ∨ batchID r = "" ∧ opening = [batchOpenLine r (batchID (buf st'))])).
  { destruct (finalized r) eqn:Hfin.
    - assert (st' = st) as Hst.
      { unfold st', exec, Flush. rewrite flushInternal_eq. fold r. by rewrite Hfin. }
      rewrite Hst. split; [done|]. exists []. split; [|by left].
      apply (sentBy_app _ _ []). fold st'. by rewrite Hst, app_nil_r.
    - destruct (flushInternal_sent false blocking st Hfin) as (Hsent & Hb & Hf & _).
      fold (Flush blocking) in Hsent, Hb, Hf. fold st' r s in Hsent, Hb, Hf.
      split; [done|]. cbn [andb] in Hsent. rewrite app_nil_r in Hsent.
      rewrite <- Hb in Hsent.
      rewrite afterDecision_Flush, sendBatchStart_sent in Hsent, Hb.
      fold r s in Hsent, Hb.
      destruct (Has s LabeledResponse && bool_decide (Label r ≠ "")).
      + destruct (decide (batchID r = "")) as [He|Hne].
        * rewrite bool_decide_eq_false_2 in Hsent, Hb by (by intros ?).
          cbn [buf world sent transmitted advanced set_batchID messages batchID]
            in Hsent, Hb.
          rewrite <- app_assoc in Hsent.
          exists [batchOpenLine r (batchID (buf st'))]. split; [|by right].
          rewrite (sentBy_app _ _ _ Hsent), map_app, map_wire. cbn [map wire t_msg].
          by rewrite Hb.
        * rewrite (bool_decide_eq_true_2 _ Hne) in Hsent.
          exists []. split; [|by left]. by rewrite (sentBy_app _ _ _ Hsent), map_wire.
      + exists []. split; [|by left]. by rewrite (sentBy_app _ _ _ Hsent), map_wire. }
  destruct Hshape as (Hfin' & opening & Hsent & Hopening).
  split; [exact Hfin'|]. split; [eauto|]. split.
  - intros m Hm (Hcmd & id & Hparams). rewrite Hsent in Hm.
    apply elem_of_app in Hm as [Hm | Hm].
    + destruct Hopening as [-> | (_ & ->)]; [by apply elem_of_nil in Hm|].
      apply list_elem_of_singleton in Hm. subst m. exfalso. revert Hparams.
      unfold batchOpenLine. by case_bool_decide.
    + apply list_elem_of_fmap in Hm as (q & -> & Hq).
      destruct (finalized r); [by apply elem_of_nil in Hq|].
      destruct (outgoing_shape s (batchID (buf st')) q) as (_ & Hc & Hp).
      exists q. by rewrite Hc, Hp.
  - intros He Hopened ops blocking' Hops.
    destruct (finalized r) eqn:Hfin.
    { exfalso. apply Hopened. unfold st', exec, Flush.
      rewrite flushInternal_eq. fold r. by rewrite Hfin. }
    destruct (calls_frame ops st') as ((Hs & Hk) & Hf).
    rewrite Send_closes.
    + rewrite (Hk Hopened). unfold batchCloseLine. rewrite Hs.
      destruct (keepsBatch_flushInternal false blocking st) as ((Hs' & _) & _).
      fold (Flush blocking) in Hs'. fold st' in Hs'. by rewrite Hs'.
    + rewrite (Hf Hops). congruence.
    + by rewrite (Hk Hopened).
Qed.

Lemma Flush_keeps_batch_open_witness :
  batchID (buf oneQueuedSt) = ""
  ∧ batchID (buf (exec (Flush true) oneQueuedSt)) ≠ ""
  ∧ Forall nonTerminal [OpAddMessage (privmsg "more"); OpFlush true; OpNotice "done"]
  ∧ last (sentBy (Send true)
            (exec (calls [OpAddMessage (privmsg "more"); OpFlush true; OpNotice "done"])
                  (exec (Flush true) oneQueuedSt)))
    = Some (batchCloseLine (buf oneQueuedSt) "tok0").
Proof.
  split; [reflexivity|]. split; [vm_compute; discriminate|].
  split; [repeat constructor|].
  apply (proj2 (proj2 (proj2 (Flush_keeps_batch_open true oneQueuedSt)))).
  - reflexivity.
  - vm_compute. discriminate.
  - repeat constructor.
Defined.

(** ** Counting the open lines of a batch *)

Lemma countOpens_app id l1 l2 :
  countOpens id (l1 ++ l2) = countOpens id l1 + countOpens id l2.
Proof. unfold countOpens. by rewrite List.filter_app, length_app. Qed.

Lemma countOpens_cons id m l :
  countOpens id (m :: l) = (if isOpenFor id m then 1 else 0) + countOpens id l.
Proof. unfold countOpens. simpl. by destruct (isOpenFor id m). Qed.

Lemma countOpens_map id (f : IrcMessage → IrcMessage) l :
  (∀ m, Command (f m) = Command m ∧ Params (f m) = Params m) →
  countOpens id (map f l) = countOpens id l.
Proof.
  intros Hf. induction l as [|m l IH]; [done|].
  cbn [map]. rewrite !countOpens_cons, IH. unfold isOpenFor.
  destruct (Hf m) as [-> ->]. done.
Qed.

Lemma isOpenFor_shape id m m' :
  Command m' = Command m → Params m' = Params m → isOpenFor id m' = isOpenFor id m.
Proof. unfold isOpenFor. by intros -> ->. Qed.

Lemma isOpenFor_command id m : Command m ≠ "BATCH" → isOpenFor id m = false.
Proof. intros H. unfold isOpenFor. by rewrite bool_decide_eq_false_2. Qed.

Lemma isOpenFor_queuedForm id r m : isOpenFor id (queuedForm r m) = isOpenFor id m.
Proof. unfold queuedForm. by destruct (last (nestedBatches r)). Qed.

Lemma isOpenFor_close id r x : isOpenFor id (batchCloseLine r x) = false.
Proof.
  unfold isOpenFor, batchCloseLine. cbn [Command Params MakeMessage head].
  apply andb_false_intro2, bool_decide_eq_false_2. intros [=].
Qed.

Lemma isOpenFor_open id r x : isOpenFor id (batchOpenLine r x) = bool_decide (x = id).
Proof.
  unfold batchOpenLine. rewrite (isOpenFor_shape id
    (MakeMessage ∅ (serverName (session r)) "BATCH" ["+" +:+ x; batchType r]))
    by (by case_bool_decide).
  unfold isOpenFor. cbn [Command Params MakeMessage head].
  rewrite bool_decide_eq_true_2 by done. cbn [andb].
  apply bool_decide_ext. split; [by intros [=] | by intros ->].
Qed.

Lemma isOpenFor_ack id r : isOpenFor id (ackMessage r) = false.
Proof.
  apply isOpenFor_command. unfold ackMessage.
  destruct (setTimeTag_shape (session r)
    (SetTag LabelTagName (Label r) (MakeMessage ∅ (serverName (session r)) "ACK" []))
    zeroTime) as (_ & -> & _). done.
Qed.

Lemma clientMessage_command s time msgid mask account tags command params :
  Command (clientMessage s time msgid mask account tags command params) = command.
Proof.
  unfold clientMessage.
  match goal with |- Command (setTimeTag s ?m time) = _ =>
    destruct (setTimeTag_shape s m time) as (_ & -> & _) end.
  by repeat match goal with |- context [if ?b then _ else _] => destruct b end.
Qed.

(** ** The invariant of the top-level batch *)

Lemma plainStep_refl st : plainStep st st.
Proof. by repeat split. Qed.

Lemma plainStep_trans st1 st2 st3 : plainStep st1 st2 → plainStep st2 st3 → plainStep st1 st3.
Proof.
  intros (Hr1 & Hd1 & Hb1 & H1) (Hr2 & Hd2 & Hb2 & H2).
  split; [congruence|]. split; [congruence|]. split; [congruence|].
  intros id Hq. destruct (H1 id Hq) as (Hq1 & Hs1). destruct (H2 id Hq1) as (Hq2 & Hs2).
  split; congruence.
Qed.

Lemma batchInv_plain st st' : plainStep st st' → batchInv st → batchInv st'.
Proof.
  intros (Hr & Hd & Hb & Hstep) (Hfresh & Hset). split.
  - intros j Hj. rewrite Hr. rewrite Hd in Hj. destruct (Hfresh j Hj) as (Hq & Hs).
    destruct (Hstep _ Hq) as (Hq' & Hs'). split; congruence.
  - rewrite Hb, Hr, Hd. intros Hne. destruct (Hset Hne) as (Hk & Hs & Hq).
    destruct (Hstep _ Hq) as (Hq' & Hs'). repeat split; [done | congruence | done].
Qed.

(** Drawing a token for a nested batch and queueing its open line. *)
Lemma batchInv_nested st st' :
  Inj (=) (=) (rand (world st)) →
  rand (world st') = rand (world st) →
  drawn (world st') = S (drawn (world st)) →
  batchID (buf st') = batchID (buf st) →
  (∀ id, id ≠ rand (world st) (drawn (world st)) → queuedOpens id st = 0 →
         queuedOpens id st' = 0 ∧ sentOpens id st' = sentOpens id st) →
  batchInv st → batchInv st'.
Proof.
  intros Hinj Hr Hd Hb Hstep (Hfresh & Hset). split.
  - intros j Hj. rewrite Hr. rewrite Hd in Hj.
    destruct (Hfresh j ltac:(lia)) as (Hq & Hs).
    destruct (Hstep (rand (world st) j)) as (Hq' & Hs'); [|done|].
    + intros Heq. apply Hinj in Heq. lia.
    + split; congruence.
  - rewrite Hb, Hr, Hd. intros Hne. destruct (Hset Hne) as ((k & Hk & Hid) & Hs & Hq).
    destruct (Hstep (batchID (buf st))) as (Hq' & Hs'); [|done|].
    + rewrite Hid. intros Heq. apply Hinj in Heq. lia.
    + repeat split; [exists k; split; [lia|done] | congruence | done].
Qed.

(** Drawing a token for the top-level batch and sending its open line. *)
Lemma batchInv_top st st' :
  Inj (=) (=) (rand (world st)) →
  rand (world st') = rand (world st) →
  drawn (world st') = S (drawn (world st)) →
  batchID (buf st) = "" →
  batchID (buf st') = rand (world st) (drawn (world st)) →
  (∀ id, queuedOpens id st' = queuedOpens id st) →
  (∀ id, sentOpens id st' =
         sentOpens id st
           + (if bool_decide (rand (world st) (drawn (world st)) = id) then 1 else 0)) →
  batchInv st → batchInv st'.
Proof.
  intros Hinj Hr Hd He Hb Hq Hs (Hfresh & _). split.
  - intros j Hj. rewrite Hr, Hq, Hs. rewrite Hd in Hj.
    destruct (Hfresh j ltac:(lia)) as (Hq0 & Hs0). rewrite Hq0, Hs0.
    rewrite bool_decide_eq_false_2; [done|].
    intros Heq. apply Hinj in Heq. lia.
  - rewrite Hb, Hr, Hd, Hq, Hs. intros _.
    destruct (Hfresh (drawn (world st)) ltac:(lia)) as (Hq0 & Hs0).
    rewrite Hq0, Hs0, bool_decide_eq_true_2 by done.
    split; [|done]. exists (drawn (world st)). split; [lia|done].
Qed.

Lemma preservesInv_refl st : preservesInv st st.
Proof. by split. Qed.

Lemma preservesInv_trans st1 st2 st3 :
  preservesInv st1 st2 → preservesInv st2 st3 → preservesInv st1 st3.
Proof.
  intros (Hr1 & H1) (Hr2 & H2). split; [congruence|].
  intros Hinj Hinv. apply H2; [by rewrite Hr1 | by apply H1].
Qed.

Lemma preservesInv_plain st st' : plainStep st st' → preservesInv st st'.
Proof.
  intros Hstep. split; [apply Hstep|]. intros _. by apply batchInv_plain.
Qed.

Lemma preservesInv_forEach {A} (l : list A) (body : A → M unit) :
  (∀ x st, preservesInv st (exec (body x) st)) →
  ∀ st, preservesInv st (exec (forEach l body) st).
Proof.
  intros Hbody. induction l as [|x l IH]; intros st; [apply preservesInv_refl|].
  cbn [forEach]. rewrite exec_bind. eapply preservesInv_trans; [apply Hbody | apply IH].
Qed.

Lemma plainStep_AddMessage msg st :
  (∀ id, isOpenFor id msg = false) → plainStep st (exec (AddMessage msg) st).
Proof.
  intros Hplain. unfold exec. rewrite AddMessage_eq. cbn [snd].
  destruct (finalized (buf st)); [by repeat split|].
  split; [done|]. split; [done|]. split; [done|].
  intros id Hq. unfold queuedOpens, sentOpens in *. cbn [buf world set_messages messages].
  rewrite countOpens_app, Hq, countOpens_cons, isOpenFor_queuedForm, Hplain. done.
Qed.

Lemma plainStep_forEach {A} (l : list A) (body : A → M unit) :
  (∀ x st, plainStep st (exec (body x) st)) →
  ∀ st, plainStep st (exec (forEach l body) st).
Proof.
  intros Hbody. induction l as [|x l IH]; intros st; [apply plainStep_refl|].
  cbn [forEach]. rewrite exec_bind. eapply plainStep_trans; [apply Hbody | apply IH].
Qed.

Lemma plainStep_Broadcast tags prefix command params st :
  command ≠ "BATCH" → plainStep st (exec (Broadcast tags prefix command params) st).
Proof.
  intros Hcmd. unfold Broadcast. rewrite exec_bind.
  apply (plainStep_trans _ (exec (Add tags prefix command params) st)).
  { apply plainStep_AddMessage. intros id. by apply isOpenFor_command. }
  rewrite exec_bind. apply plainStep_forEach.
  intros peer st'. case_bool_decide; [|apply plainStep_refl]. by repeat split.
Qed.

Lemma plainStep_AddFromClient time msgid mask account tags command params st :
  command ≠ "BATCH" →
  plainStep st (exec (AddFromClient time msgid mask account tags command params) st).
Proof.
  intros Hcmd. unfold exec. rewrite AddFromClient_eq. apply plainStep_AddMessage.
  intros id. apply isOpenFor_command. by rewrite clientMessage_command.
Qed.

Lemma preservesInv_sendBatchStart blocking st :
  preservesInv st (exec (sendBatchStart blocking) st).
Proof.
  rewrite sendBatchStart_sent. case_bool_decide as Hset; [apply preservesInv_refl|].
  cbv zeta. split; [done|]. intros Hinj. apply batchInv_top; try done.
  intros id. unfold sentOpens. cbn [world sent transmitted advanced].
  rewrite map_app, countOpens_app. cbn [map t_msg wire]. rewrite countOpens_cons.
  rewrite isOpenFor_open. cbn. lia.
Qed.

Lemma plainStep_sendBatchEnd blocking st : plainStep st (exec (sendBatchEnd blocking) st).
Proof.
  unfold exec. rewrite sendBatchEnd_eq. cbn [snd]. case_bool_decide; [apply plainStep_refl|].
  split; [done|]. split; [done|]. split; [done|]. intros id Hq. split; [done|].
  unfold sentOpens. cbn [world sent transmitted].
  rewrite map_app, countOpens_app. cbn [map t_msg wire]. rewrite countOpens_cons.
  fold (batchCloseLine (buf st) (batchID (buf st))). rewrite isOpenFor_close. cbn. lia.
Qed.

Lemma preservesInv_StartNestedBatch batchType params st :
  preservesInv st (exec (StartNestedBatch batchType params) st).
Proof.
  unfold exec at 1. rewrite StartNestedBatch_eq. cbn [snd]. unfold exec.
  rewrite AddMessage_eq. cbn [snd buf world].
  split; [by destruct (finalized (buf st))|]. intros Hinj.
  apply batchInv_nested; try done; try (by destruct (finalized (buf st))).
  intros id Hid Hq. unfold queuedOpens, sentOpens in *.
  destruct (finalized (buf st)); cbn [buf world set_nestedBatches set_messages messages
                                       sent advanced reported dumped logged]; [done|].
  rewrite countOpens_app, Hq, countOpens_cons, isOpenFor_queuedForm.
  unfold isOpenFor. cbn [Command Params MakeMessage head].
  rewrite (bool_decide_eq_false_2 (Some _ = Some _)); [by rewrite andb_false_r|].
  intros [=]. by destruct Hid.
Qed.

Lemma plainStep_EndNestedBatch id st : plainStep st (exec (EndNestedBatch id) st).
Proof.
  unfold EndNestedBatch. case_bool_decide; [apply plainStep_refl|].
  rewrite exec_bind. change (exec getBuf st) with st.
  change (result getBuf st) with (buf st).
  destruct (_ || _); [by repeat split|].
  rewrite exec_bind.
  eapply plainStep_trans; [|apply plainStep_AddMessage].
  - by repeat split.
  - intros x. fold (batchCloseLine (buf st) id). apply isOpenFor_close.
Qed.

Lemma plainStep_afterQueue blocking st : plainStep st (afterQueue blocking st).
Proof.
  split; [done|]. split; [done|]. split; [done|]. intros id Hq. split; [done|].
  unfold sentOpens, queuedOpens, afterQueue in *. cbn [world sent transmitted].
  rewrite map_app, countOpens_app.
  rewrite <- (map_map (outgoing (session (buf st)) (batchID (buf st)))
                      (wire (session (buf st)) blocking)).
  rewrite map_wire, countOpens_map, Hq; [lia|].
  intros m. destruct (outgoing_shape (session (buf st)) (batchID (buf st)) m) as (_&?&?).
  done.
Qed.

Lemma preservesInv_afterDecision final blocking st :
  preservesInv st (afterDecision final blocking st).
Proof.
  unfold afterDecision.
  destruct (_ && (_ || _)); [apply preservesInv_sendBatchStart|].
  destruct (_ && _ && _ && _).
  { apply preservesInv_plain. split; [done|]. split; [done|]. split; [done|].
    intros id Hq. split; [done|]. unfold sentOpens. cbn [world sent transmitted].
    rewrite map_app, countOpens_app. cbn [map t_msg wire]. rewrite countOpens_cons.
    rewrite isOpenFor_ack. cbn. lia. }
  destruct (_ && _ && _ && _); [|apply preservesInv_refl].
  apply preservesInv_plain. split; [done|]. split; [done|]. split; [done|].
  intros id Hq. split; [|done]. unfold queuedOpens in *. cbn [buf set_messages messages].
  destruct (messages (buf st)) as [|m ms]; [done|]. cbn [alter list_alter].
  rewrite countOpens_cons in *.
  by rewrite (isOpenFor_shape id m (SetTag LabelTagName (Label (buf st)) m)).
Qed.

Lemma preservesInv_flushInternal final blocking st :
  preservesInv st (exec (flushInternal final blocking) st).
Proof.
  unfold exec. rewrite flushInternal_eq. cbn [snd].
  destruct (finalized (buf st)); [apply preservesInv_refl|].
  eapply preservesInv_trans; [apply preservesInv_afterDecision|].
  set (st1 := afterDecision final blocking st).
  eapply preservesInv_trans; [apply preservesInv_plain, plainStep_afterQueue|].
  set (st2 := afterQueue blocking st1).
  apply preservesInv_plain.
  assert (plainStep st2 (afterClose final blocking st2)) as Hclose.
  { unfold afterClose. destruct final; [|apply plainStep_refl].
    eapply plainStep_trans; [apply (plainStep_sendBatchEnd blocking)|].
    by repeat split. }
  eapply plainStep_trans; [exact Hclose|].
  split; [done|]. split; [done|]. split; [done|]. intros id Hq. by split.
Qed.

Lemma call_preservesInv (op : Op) (st : St) :
  honest op → preservesInv st (exec (call op) st).
Proof.
  destruct op; cbn [call honest]; intros Hop; rewrite ?exec_discard.
  - by apply preservesInv_plain.
  - apply preservesInv_plain, plainStep_AddMessage.
    intros id. by apply isOpenFor_command.
  - apply preservesInv_plain, plainStep_AddMessage.
    intros id. by apply isOpenFor_command.
  - by apply preservesInv_plain, plainStep_Broadcast.
  - by apply preservesInv_plain, plainStep_AddFromClient.
  - unfold AddSplitMessageFromClient. rewrite exec_bind. change (exec getBuf st) with st.
    destruct (_ || _).
    + by apply preservesInv_plain, plainStep_AddFromClient.
    + apply preservesInv_forEach. intros.
      by apply preservesInv_plain, plainStep_AddFromClient.
  - unfold ForceBatchStart. rewrite exec_bind.
    eapply preservesInv_trans; [|apply preservesInv_sendBatchStart].
    by apply preservesInv_plain.
  - apply preservesInv_sendBatchStart.
  - apply preservesInv_plain, plainStep_sendBatchEnd.
  - apply preservesInv_StartNestedBatch.
  - apply preservesInv_plain, plainStep_EndNestedBatch.
  - unfold StartNestedHistoryBatch. rewrite exec_bind. change (exec getBuf st) with st.
    case_bool_decide; [apply preservesInv_StartNestedBatch | apply preservesInv_refl].
  - apply preservesInv_flushInternal.
  - apply preservesInv_flushInternal.
  - unfold Notice. rewrite exec_bind. apply preservesInv_plain, plainStep_AddMessage.
    intros id. by apply isOpenFor_command.
Qed.

Lemma calls_preservesInv (ops : list Op) (st : St) :
  Forall honest ops → preservesInv st (exec (calls ops) st).
Proof.
  revert st. induction ops as [|op ops IH]; intros st Hall.
  - apply preservesInv_refl.
  - inversion Hall; subst. rewrite calls_cons.
    eapply preservesInv_trans; [by apply call_preservesInv | by apply IH].
Qed.

Lemma demoRand_inj : Inj (=) (=) demoRand.
Proof.
  intros i j H. unfold demoRand in H. simpl in H. injection H as H.
  by apply (inj pretty).
Qed.

(** ** Opening the top-level batch once *)

(** C3: [sendBatchStart] on a buffer whose batch identifier is set changes
    nothing and transmits nothing; on a buffer without identifier it takes
    the next token as identifier and transmits exactly the open line, so
    calling it twice is calling it once.  Whatever is called on the buffer
    afterwards, an identifier that is set stays as it is.  And for a new
    buffer on a session whose log mentions no token that is still to be
    drawn, with tokens that never repeat and callers that leave the BATCH
    command to the buffer: whenever the identifier is set, the session has
    been sent exactly one open line for it. *)
Theorem sendBatchStart_once :
  (∀ blocking st, batchID (buf st) ≠ "" → sendBatchStart blocking st = ((), st))
  ∧ (∀ blocking st, batchID (buf st) = "" →
       batchID (buf (exec (sendBatchStart blocking) st))
         = rand (world st) (drawn (world st))
       ∧ sentBy (sendBatchStart blocking) st
         = [batchOpenLine (buf st) (rand (world st) (drawn (world st)))])
  ∧ (∀ b1 b2 st,
       (batchID (buf st) = "" → rand (world st) (drawn (world st)) ≠ "") →
       exec (sendBatchStart b2) (exec (sendBatchStart b1) st)
         = exec (sendBatchStart b1) st)
  ∧ (∀ ops st, batchID (buf st) ≠ "" →
       batchID (buf (exec (calls ops) st)) = batchID (buf st))
  ∧ (∀ s w ops,
       Inj (=) (=) (rand w) →
       (∀ j, (drawn w ≤ j)%nat → countOpens (rand w j) (map t_msg (sent w)) = 0) →
       Forall honest ops →
       batchID (buf (exec (calls ops) {| buf := NewResponseBuffer s; world := w |})) ≠ "" →
       sentOpens
         (batchID (buf (exec (calls ops) {| buf := NewResponseBuffer s; world := w |})))
         (exec (calls ops) {| buf := NewResponseBuffer s; world := w |}) = 1).
Proof.
  split; [|split; [|split; [|split]]].
  - intros blocking st Hset. rewrite sendBatchStart_eq.
    by rewrite (bool_decide_eq_true_2 _ Hset).
  - intros blocking st Hunset.
    assert (exec (sendBatchStart blocking) st =
              {| buf := set_batchID (rand (world st) (drawn (world st))) (buf st);
                 world := transmitted
                            [wire (session (buf st)) blocking
                                  (batchOpenLine (buf st) (rand (world st) (drawn (world st))))]
                            (advanced (world st)) |}) as Heq.
    { rewrite sendBatchStart_sent. by rewrite bool_decide_eq_false_2 by (by intros ?). }
    split; [by rewrite Heq|].
    apply (sentBy_app _ _ [wire (session (buf st)) blocking
                             (batchOpenLine (buf st) (rand (world st) (drawn (world st))))]).
    by rewrite Heq.
  - intros b1 b2 st Htoken.
    rewrite (sendBatchStart_sent b2). rewrite bool_decide_eq_true_2; [done|].
    rewrite sendBatchStart_sent.
    destruct (decide (batchID (buf st) = "")) as [Hunset|Hset].
    + rewrite bool_decide_eq_false_2 by (by intros ?).
      cbn [buf set_batchID batchID]. by apply Htoken.
    + by rewrite bool_decide_eq_true_2.
  - intros ops st Hset. by apply (calls_frame ops st).
  - intros s w ops Hinj Hlog Hops Hset.
    destruct (calls_preservesInv ops {| buf := NewResponseBuffer s; world := w |} Hops)
      as (_ & Hinv).
    destruct Hinv as (_ & Hone); [exact Hinj | | by apply Hone].
    split; [|done]. intros j Hj. split; [done|]. by apply Hlog.
Qed.

Lemma sendBatchStart_once_witness :
  batchID (buf (exec (Flush true) oneQueuedSt)) ≠ ""
  ∧ sendBatchStart true (exec (Flush true) oneQueuedSt)
    = ((), exec (Flush true) oneQueuedSt)
  ∧ Forall honest [OpSetLabel "abc123"; OpAdd ∅ bobMask "PRIVMSG" ["#chan"; "hi"];
                   OpFlush true; OpStartNestedBatch "history" ["#chan"];
                   OpForceBatchStart "chathistory" true; OpSend true]
  ∧ sentOpens "tok0"
      (exec (calls [OpSetLabel "abc123"; OpAdd ∅ bobMask "PRIVMSG" ["#chan"; "hi"];
                    OpFlush true; OpStartNestedBatch "history" ["#chan"];
                    OpForceBatchStart "chathistory" true; OpSend true])
            {| buf := NewResponseBuffer (demoSession {[LabeledResponse]});
               world := demoWorld |}) = 1.
Proof.
  split; [vm_compute; discriminate|].
  split.
  { apply (proj1 sendBatchStart_once). vm_compute. discriminate. }
  split; [repeat constructor; discriminate|].
  change "tok0" with
    (batchID (buf (exec (calls [OpSetLabel "abc123";
                                OpAdd ∅ bobMask "PRIVMSG" ["#chan"; "hi"];
                                OpFlush true; OpStartNestedBatch "history" ["#chan"];
                                OpForceBatchStart "chathistory" true; OpSend true])
                        {| buf := NewResponseBuffer (demoSession {[LabeledResponse]});
                           world := demoWorld |}))) at 1.
  apply (proj2 (proj2 (proj2 (proj2 sendBatchStart_once)))
           (demoSession {[LabeledResponse]}) demoWorld
           [OpSetLabel "abc123"; OpAdd ∅ bobMask "PRIVMSG" ["#chan"; "hi"];
            OpFlush true; OpStartNestedBatch "history" ["#chan"];
            OpForceBatchStart "chathistory" true; OpSend true]).
  - exact demoRand_inj.
  - reflexivity.
  - repeat constructor; discriminate.
  - vm_compute. discriminate.
Defined.

(** * Further properties of the buffer *)

(** ** Flushing twice *)

(** X1: a flush of a finalized buffer, terminal or not, returns nil and
    changes nothing; a terminal flush always leaves the buffer finalized,
    so whatever flush follows a [Send] sends nothing. *)
Theorem flush_finalized_noop (final blocking : bool) (st : St) :
  (finalized (buf st) = true → flushInternal final blocking st = (None, st))
  ∧ finalized (buf (exec (Send blocking) st)) = true
  ∧ (∀ final' blocking',
       flushInternal final' blocking' (exec (Send blocking) st)
       = (None, exec (Send blocking) st)).
Proof.
  assert (Hnoop : ∀ f b st0, finalized (buf st0) = true →
                             flushInternal f b st0 = (None, st0)).
  { intros f b st0 Hfin. by rewrite flushInternal_eq, Hfin. }
  assert (Hsend : finalized (buf (exec (Send blocking) st)) = true).
  { destruct (keepsBatch_flushInternal true blocking st) as (_ & Hf).
    unfold Send. by rewrite Hf, orb_true_r. }
  split; [apply Hnoop|]. split; [exact Hsend|].
  intros final' blocking'. by apply Hnoop.
Qed.

Lemma flush_finalized_noop_witness :
  finalized (buf ackedSt) = true
  ∧ flushInternal false true ackedSt = (None, ackedSt).
Proof.
  split; [reflexivity|].
  apply (proj1 (flush_finalized_noop false true ackedSt)). reflexivity.
Defined.

(** ** The cases of the framing decision *)

Lemma afterDecision_unlabelled final blocking st :
  Has (session (buf st)) LabeledResponse && bool_decide (Label (buf st) ≠ "") = false →
  afterDecision final blocking st = st.
Proof. intros Huse. unfold afterDecision. by rewrite Huse. Qed.

Lemma afterDecision_open final blocking st :
  batchID (buf st) ≠ "" → afterDecision final blocking st = st.
Proof.
  intros Hset. unfold afterDecision. rewrite sendBatchStart_sent.
  rewrite (bool_decide_eq_true_2 _ Hset).
  rewrite (bool_decide_eq_false_2 (batchID (buf st) = "")) by done.
  rewrite !andb_false_r. cbn [andb]. by destruct (_ && _).
Qed.

(** X2: on a buffer without request correlation (no label, or a session
    without the capability) and without an open batch, a flush hands the
    session exactly the queued messages, in order, each only passed
    through the time-tag helper: no framing line, no batch tag, no label
    tag, no token drawn. *)
Theorem flush_unlabelled_transparent (final blocking : bool) (st : St) :
  let r := buf st in
  let s := session r in
  let st' := exec (flushInternal final blocking) st in
  finalized r = false →
  Has s LabeledResponse = false ∨ Label r = "" →
  batchID r = "" →
  sentBy (flushInternal final blocking) st = map (λ m, setTimeTag s m zeroTime) (messages r)
  ∧ batchID (buf st') = ""
  ∧ drawn (world st') = drawn (world st)
  ∧ messages (buf st') = []
  ∧ finalized (buf st') = final.
Proof.
  intros r s st' Hfin Hnolabel Hunset.
  assert (Huse : Has s LabeledResponse && bool_decide (Label r ≠ "") = false).
  { destruct Hnolabel as [-> | ->]; [done|]. apply andb_false_r. }
  destruct (flushInternal_sent final blocking st Hfin) as (Hsent & Hb & Hf & Hq).
  rewrite (afterDecision_unlabelled final blocking st Huse) in Hsent, Hb.
  fold r s st' in Hsent, Hb, Hf, Hq. rewrite Hunset in Hsent.
  rewrite andb_false_r, app_nil_r in Hsent.
  split.
  { rewrite (sentBy_app _ _ _ Hsent), map_wire. apply map_ext. intros m.
    apply outgoing_no_batch. }
  split; [congruence|]. split; [|by split].
  unfold st', exec. rewrite flushInternal_eq. fold r. rewrite Hfin. cbn [snd world].
  rewrite (afterDecision_unlabelled final blocking st Huse).
  unfold afterClose, afterQueue, exec. rewrite sendBatchEnd_eq. cbn [buf world snd].
  fold r. rewrite Hunset. by destruct final.
Qed.

Lemma flush_unlabelled_transparent_witness :
  finalized (buf closedNestedSt) = false
  ∧ Label (buf closedNestedSt) = ""
  ∧ batchID (buf closedNestedSt) = ""
  ∧ sentBy (flushInternal true false) closedNestedSt
    = map (λ m, setTimeTag (session (buf closedNestedSt)) m zeroTime)
          (messages (buf closedNestedSt)).
Proof.
  split; [reflexivity|]. split; [reflexivity|]. split; [reflexivity|].
  apply (flush_unlabelled_transparent true false closedNestedSt);
    [reflexivity | right; reflexivity | reflexivity].
Defined.

(** X3: once the top-level batch is open, a flush sends the queue and, if
    it is terminal, the close line, and nothing else, whatever the label
    and the capabilities are: no ACK for an empty queue, no label tag set
    on a single reply; a queued message without batch tag goes out tagged
    with the batch identifier. *)
Theorem flush_open_batch (final blocking : bool) (st : St) :
  let r := buf st in
  let s := session r in
  finalized r = false → batchID r ≠ "" →
  sentBy (flushInternal final blocking) st =
    map (outgoing s (batchID r)) (messages r)
      ++ (if final then [batchCloseLine r (batchID r)] else [])
  ∧ Forall (λ m,
       Tags (outgoing s (batchID r) m) !! "batch"
         = Some (default (batchID r) (Tags m !! "batch"))
       ∧ Tags (outgoing s (batchID r) m) !! LabelTagName = Tags m !! LabelTagName)
      (messages r)
  ∧ batchID (buf (exec (flushInternal final blocking) st)) = batchID r.
Proof.
  intros r s Hfin Hset.
  destruct (flushInternal_sent final blocking st Hfin) as (Hsent & Hb & _).
  rewrite (afterDecision_open final blocking st Hset) in Hsent, Hb.
  fold r s in Hsent, Hb. rewrite (bool_decide_eq_true_2 _ Hset), andb_true_r in Hsent.
  split; [|split; [|exact Hb]].
  - rewrite (sentBy_app _ _ _ Hsent), map_app, map_wire. by destruct final.
  - apply Forall_forall. intros m _.
    rewrite outgoing_batch_tag, outgoing_other_tag, (bool_decide_eq_true_2 _ Hset) by done.
    by destruct (Tags m !! "batch").
Qed.

Lemma flush_open_batch_witness :
  finalized (buf flushedSt) = false
  ∧ batchID (buf flushedSt) ≠ ""
  ∧ map Command (sentBy (flushInternal true true) flushedSt) = ["PRIVMSG"; "PRIVMSG"; "BATCH"].
Proof.
  split; [reflexivity|]. split; [vm_compute; discriminate|].
  rewrite (proj1 (flush_open_batch true true flushedSt eq_refl
                    ltac:(vm_compute; discriminate))).
  vm_compute. reflexivity.
Defined.

(** The four outcomes of the framing decision. *)
Lemma afterDecision_cases final blocking st :
  let r := buf st in
  let s := session r in
  afterDecision final blocking st = st
  ∨ (batchID r = ""
     ∧ afterDecision final blocking st =
         {| buf := set_batchID (rand (world st) (drawn (world st))) r;
            world := transmitted
                       [wire s blocking
                             (batchOpenLine r (rand (world st) (drawn (world st))))]
                       (advanced (world st)) |})
  ∨ (messages r = [] ∧ batchID r = "" ∧ final = true
     ∧ afterDecision final blocking st =
         {| buf := r; world := transmitted [wire s blocking (ackMessage r)] (world st) |})
  ∨ (∃ m, messages r = [m] ∧ batchID r = "" ∧ final = true
        ∧ afterDecision final blocking st =
            {| buf := set_messages [SetTag LabelTagName (Label r) m] r;
               world := world st |}).
Proof.
  intros r s. unfold afterDecision. fold r s. rewrite sendBatchStart_sent. fold r s.
  destruct (_ && (_ || _)).
  { destruct (decide (batchID r = "")) as [He|Hne].
    - right. left. split; [done|]. by rewrite bool_decide_eq_false_2 by (by intros ?).
    - left. by rewrite bool_decide_eq_true_2. }
  destruct (_ && bool_decide (length (messages r) = 0) && _ && _) eqn:Hack.
  { right. right. left.
    apply andb_true_iff in Hack as [Hack ->].
    apply andb_true_iff in Hack as [Hack He%bool_decide_eq_true].
    apply andb_true_iff in Hack as [_ Hlen%bool_decide_eq_true].
    repeat split; try done. by destruct (messages r). }
  destruct (_ && bool_decide (length (messages r) = 1) && _ && _) eqn:Hone; [|by left].
  right. right. right.
  apply andb_true_iff in Hone as [Hone ->].
  apply andb_true_iff in Hone as [Hone He%bool_decide_eq_true].
  apply andb_true_iff in Hone as [_ Hlen%bool_decide_eq_true].
  destruct (messages r) as [|m [|m' ms]] eqn:Hq; try done.
  exists m. by repeat split.
Qed.

Lemma sameLine_refl m : sameLine m m.
Proof. done. Qed.

Lemma sameLine_outgoing s id q m : sameLine q m → sameLine q (outgoing s id m).
Proof.
  intros (Hp & Hc & Hps). destruct (outgoing_shape s id m) as (Hp' & Hc' & Hps').
  repeat split; congruence.
Qed.

Lemma Forall2_sameLine_outgoing s id (qs ms : list IrcMessage) :
  Forall2 sameLine qs ms → Forall2 sameLine qs (map (outgoing s id) ms).
Proof.
  induction 1; cbn [map]; constructor; auto using sameLine_outgoing.
Qed.

Lemma Forall2_sameLine_refl (ms : list IrcMessage) : Forall2 sameLine ms ms.
Proof. induction ms; constructor; auto using sameLine_refl. Qed.

(** ** Conservation of the queue *)

(** X4: a flush of a buffer that is not finalized hands every queued
    message to the session exactly once and in queue order, with source,
    command and parameters as queued.  Ahead of them it sends at most one
    line (the ACK or the open line of the top-level batch), after them at
    most one (the close line, on a terminal flush only); afterwards the
    queue is empty. *)
Theorem flush_conserves_queue (final blocking : bool) (st : St) :
  let r := buf st in
  finalized r = false →
  ∃ pre body post,
    sentBy (flushInternal final blocking) st = pre ++ body ++ post
    ∧ Forall2 sameLine (messages r) body
    ∧ flushPrelude r pre
    ∧ flushCoda r final post
    ∧ messages (buf (exec (flushInternal final blocking) st)) = [].
Proof.
  intros r Hfin.
  destruct (flushInternal_sent final blocking st Hfin) as (Hsent & _ & _ & Hq).
  fold r in Hsent. set (s := session r) in *.
  set (st1 := afterDecision final blocking st) in *.
  assert (Hcoda : flushCoda r final
            (map t_msg (if final && bool_decide (batchID (buf st1) ≠ "")
                        then [wire s blocking (batchCloseLine r (batchID (buf st1)))]
                        else []))).
  { destruct final; [|by left]. cbn [andb]. case_bool_decide; [|by left].
    right. split; [done|]. by exists (batchID (buf st1)). }
  assert (Hpre : ∃ pre, sent (world st1) = sent (world st) ++ map (wire s blocking) pre
                        ∧ flushPrelude r pre
                        ∧ Forall2 sameLine (messages r) (messages (buf st1))).
  { destruct (afterDecision_cases final blocking st)
      as [Hst | [(_ & Hst) | [(_ & _ & _ & Hst) | (m & Hm & _ & _ & Hst)]]];
      fold r s st1 in Hst; rewrite Hst.
    - exists []. split; [by rewrite app_nil_r|]. split; [by left|].
      apply Forall2_sameLine_refl.
    - eexists [_]. split; [reflexivity|]. split; [right; right; eauto|].
      apply Forall2_sameLine_refl.
    - exists [ackMessage r]. split; [done|]. split; [right; by left|].
      apply Forall2_sameLine_refl.
    - exists []. split; [by rewrite app_nil_r|]. split; [by left|].
      cbn [buf set_messages messages]. unfold r. rewrite Hm. by repeat constructor. }
  destruct Hpre as (pre & Hsent1 & Hshape & Hsame).
  rewrite Hsent1, <- app_assoc in Hsent.
  eexists pre, _, _. split.
  { rewrite (sentBy_app _ _ _ Hsent), !map_app, !map_wire. reflexivity. }
  split; [by apply Forall2_sameLine_outgoing|]. by repeat split.
Qed.

Lemma flush_conserves_queue_witness :
  finalized (buf replayedSt) = false
  ∧ ∃ pre body post,
      sentBy (flushInternal true true) replayedSt = pre ++ body ++ post
      ∧ length body = 3.
Proof.
  split; [reflexivity|].
  destruct (flush_conserves_queue true true replayedSt eq_refl)
    as (pre & body & post & Hsent & Hsame & _).
  exists pre, body, post. split; [exact Hsent|].
  apply Forall2_length in Hsame. rewrite <- Hsame. reflexivity.
Defined.

(** ** What a flush leaves alone *)

Lemma flushInternal_wires final blocking st :
  ∃ lines,
    sent (world (exec (flushInternal final blocking) st))
    = sent (world st) ++ map (wire (session (buf st)) blocking) lines.
Proof.
  destruct (finalized (buf st)) eqn:Hfin.
  { exists []. unfold exec. rewrite flushInternal_eq, Hfin. cbn. by rewrite app_nil_r. }
  destruct (flushInternal_sent final blocking st Hfin) as (Hsent & _).
  set (s := session (buf st)) in *. set (st1 := afterDecision final blocking st) in *.
  assert (∃ pre, sent (world st1) = sent (world st) ++ map (wire s blocking) pre)
    as (pre & Hpre).
  { destruct (afterDecision_cases final blocking st)
      as [Hst | [(_ & Hst) | [(_ & _ & _ & Hst) | (m & _ & _ & _ & Hst)]]];
      fold s st1 in Hst; rewrite Hst.
    - exists []. by rewrite app_nil_r.
    - by eexists [_].
    - by eexists [_].
    - exists []. by rewrite app_nil_r. }
  rewrite Hpre, <- app_assoc in Hsent.
  exists (pre ++ map (outgoing s (batchID (buf st1))) (messages (buf st1))
              ++ (if final && bool_decide (batchID (buf st1) ≠ "")
                  then [batchCloseLine (buf st) (batchID (buf st1))] else [])).
  rewrite Hsent, !map_app. by destruct (_ && _).
Qed.

Lemma afterDecision_frame final blocking st :
  let st1 := afterDecision final blocking st in
  errlog (world st1) = errlog (world st)
  ∧ stackDumps (world st1) = stackDumps (world st)
  ∧ peerSent (world st1) = peerSent (world st)
  ∧ rand (world st1) = rand (world st)
  ∧ nestedBatches (buf st1) = nestedBatches (buf st)
  ∧ Label (buf st1) = Label (buf st)
  ∧ batchType (buf st1) = batchType (buf st).
Proof.
  destruct (afterDecision_cases final blocking st)
    as [Hst | [(_ & Hst) | [(_ & _ & _ & Hst) | (m & _ & _ & _ & Hst)]]];
    cbv zeta; rewrite Hst; by repeat split.
Qed.

Lemma flushInternal_frame (final blocking : bool) (st : St) :
  let st' := exec (flushInternal final blocking) st in
  errlog (world st') = errlog (world st)
  ∧ stackDumps (world st') = stackDumps (world st)
  ∧ peerSent (world st') = peerSent (world st)
  ∧ nestedBatches (buf st') = nestedBatches (buf st)
  ∧ Label (buf st') = Label (buf st)
  ∧ batchType (buf st') = batchType (buf st)
  ∧ session (buf st') = session (buf st).
Proof.
  intros st'.
  destruct (keepsBatch_flushInternal final blocking st) as ((Hs & _) & _).
  fold st' in Hs. subst st'. unfold exec in *. rewrite flushInternal_eq in *.
  cbn [snd] in *. destruct (finalized (buf st)); [done|].
  destruct (afterDecision_frame final blocking st) as (He & Hd & Hp & _ & Hn & Hl & Ht).
  unfold afterClose, afterQueue, exec in *. rewrite sendBatchEnd_eq in *.
  cbn [buf world snd] in *.
  destruct final; [case_bool_decide|]; cbn; by repeat split.
Qed.

(** X5: a flush writes to the session and to nothing else.  Every line of
    the flush is handed over in the blocking mode the caller gave, a line
    the socket refuses is neither retried nor reported, the error log and
    the other sessions of the client see nothing, and label, batch type,
    session and the stack of nested batches stay as they were: a nested
    batch left open is not closed by the flush. *)
Theorem flush_touches_only_session (final blocking : bool) (st : St) :
  let s := session (buf st) in
  let st' := exec (flushInternal final blocking) st in
  drop (length (sent (world st))) (sent (world st'))
    = map (wire s blocking) (sentBy (flushInternal final blocking) st)
  ∧ errlog (world st') = errlog (world st)
  ∧ stackDumps (world st') = stackDumps (world st)
  ∧ peerSent (world st') = peerSent (world st)
  ∧ nestedBatches (buf st') = nestedBatches (buf st)
  ∧ Label (buf st') = Label (buf st)
  ∧ batchType (buf st') = batchType (buf st)
  ∧ session (buf st') = s.
Proof.
  intros s st'. split; [|apply flushInternal_frame].
  destruct (flushInternal_wires final blocking st) as (lines & Hlines).
  fold s st' in Hlines. rewrite (sentBy_app _ _ _ Hlines), Hlines.
  by rewrite drop_app_length, map_wire.
Qed.

(** ** A nested batch, opened and closed *)

Lemma forEach_AddMessage (ms : list IrcMessage) (st : St) :
  finalized (buf st) = false →
  forEach ms AddMessage st =
    ((), {| buf := set_messages (messages (buf st) ++ map (queuedForm (buf st)) ms) (buf st);
            world := world st |}).
Proof.
  revert st. induction ms as [|m ms IH]; intros st Hfin.
  - simpl. unfold ret, set_messages. rewrite app_nil_r, buf_eta. by destruct st.
  - cbn [forEach]. rewrite bind_run. unfold exec. rewrite AddMessage_eq, Hfin.
    cbn [snd]. rewrite IH by done. cbn [buf world set_messages messages map].
    unfold queuedForm. cbn [nestedBatches set_messages]. by rewrite <- app_assoc.
Qed.

Lemma EndNestedBatch_top (id : string) (st : St) :
  id ≠ "" → last (nestedBatches (buf st)) = Some id →
  EndNestedBatch id st =
    AddMessage (batchCloseLine (buf st) id)
      {| buf := set_nestedBatches
                  (take (length (nestedBatches (buf st)) - 1) (nestedBatches (buf st)))
                  (buf st);
         world := world st |}.
Proof.
  intros Hid Htop. unfold EndNestedBatch. rewrite bool_decide_eq_false_2 by done.
  rewrite bind_run. change (result getBuf st) with (buf st). change (exec getBuf st) with st.
  rewrite (bool_decide_eq_false_2 (0 = _)).
  2:{ destruct (nestedBatches (buf st)); [done | simpl; lia]. }
  rewrite (bool_decide_eq_false_2 (last _ ≠ _)) by (intros Hne; by apply Hne).
  cbn [orb]. by rewrite bind_run.
Qed.

(** X6: on a buffer that is not finalized, opening a nested batch,
    enqueueing messages and closing the batch with the identifier that was
    returned leaves the stack of nested batches as it was and sends
    nothing.  The queue grows by the open line, the messages, each tagged
    as a member of the new batch (a batch tag the caller had set is
    replaced), and the close line; open and close line are stored as
    members of the enclosing nested batch, or untagged if there is none. *)
Theorem nested_batch_bracket (batchType : string) (params : list string)
    (ms : list IrcMessage) (st : St) :
  let r := buf st in
  let id := rand (world st) (drawn (world st)) in
  let st' := exec (let* b := StartNestedBatch batchType params in
                   let* _ := forEach ms AddMessage in
                   EndNestedBatch b) st in
  finalized r = false → id ≠ "" →
  nestedBatches (buf st') = nestedBatches r
  ∧ messages (buf st') =
      messages r
        ++ [queuedForm r (MakeMessage ∅ (serverName (session r)) "BATCH"
                                      (("+" +:+ id) :: batchType :: params))]
        ++ map (SetTag "batch" id) ms
        ++ [queuedForm r (batchCloseLine r id)]
  ∧ sent (world st') = sent (world st)
  ∧ errlog (world st') = errlog (world st)
  ∧ finalized (buf st') = false.
Proof.
  intros r id st' Hfin Hid.
  set (open := queuedForm r (MakeMessage ∅ (serverName (session r)) "BATCH"
                                         (("+" +:+ id) :: batchType :: params))).
  set (st1 := {| buf := set_nestedBatches (nestedBatches r ++ [id])
                          (set_messages (messages r ++ [open]) r);
                 world := advanced (world st) |}).
  assert (Hstart : StartNestedBatch batchType params st = (id, st1)).
  { rewrite StartNestedBatch_eq. fold id. unfold exec. rewrite AddMessage_eq.
    cbn [snd buf world]. fold r. by rewrite Hfin. }
  set (st2 := {| buf := set_messages ((messages r ++ [open]) ++ map (SetTag "batch" id) ms)
                          (buf st1);
                 world := advanced (world st) |}).
  assert (Hfill : forEach ms AddMessage st1 = ((), st2)).
  { rewrite forEach_AddMessage by done. unfold st2. f_equal. f_equal. f_equal.
    cbn [buf st1 messages set_nestedBatches set_messages]. f_equal.
    apply map_ext. intros m. unfold queuedForm. cbn [nestedBatches set_nestedBatches].
    by rewrite last_snoc. }
  assert (Hend : EndNestedBatch id st2 =
            ((), {| buf := set_messages
                             (((messages r ++ [open]) ++ map (SetTag "batch" id) ms)
                                ++ [queuedForm r (batchCloseLine r id)])
                             (set_nestedBatches (nestedBatches r) (buf st2));
                    world := advanced (world st) |})).
  { rewrite EndNestedBatch_top; [|done|by cbn; rewrite last_snoc].
    rewrite AddMessage_eq.
    cbn [buf world st2 st1 set_messages set_nestedBatches messages nestedBatches finalized
         session].
    fold r. rewrite Hfin. rewrite length_app. cbn [length].
    replace (length (nestedBatches r) + 1 - 1) with (length (nestedBatches r)) by lia.
    rewrite take_app_length. unfold queuedForm, batchCloseLine.
    cbn [nestedBatches session set_nestedBatches set_messages]. done. }
  assert (Hall : st' = snd (EndNestedBatch id st2)).
  { unfold st'. rewrite exec_bind. unfold result, exec. rewrite Hstart. cbn [fst snd].
    rewrite bind_run. unfold exec. by rewrite Hfill. }
  rewrite Hall, Hend. cbn [snd buf world set_messages set_nestedBatches messages
                            nestedBatches finalized sent errlog advanced st2 st1].
  rewrite <- !app_assoc. by repeat split.
Qed.

Lemma nested_batch_bracket_witness :
  finalized (buf nestedSt) = false
  ∧ rand (world nestedSt) (drawn (world nestedSt)) ≠ ""
  ∧ nestedBatches
      (buf (exec (let* b := StartNestedBatch "chathistory" ["#chan"] in
                  let* _ := forEach [privmsg "hi"] AddMessage in
                  EndNestedBatch b) nestedSt))
    = nestedBatches (buf nestedSt).
Proof.
  split; [reflexivity|]. split; [vm_compute; discriminate|].
  apply (nested_batch_bracket "chathistory" ["#chan"] [privmsg "hi"] nestedSt);
    [reflexivity | vm_compute; discriminate].
Defined.

(** ** History batches without the capability *)

(** X7: [StartNestedHistoryBatch] opens a [history] batch for a session
    with event-playback, a [chathistory] batch for a session that only has
    the batch capability, and otherwise returns the empty identifier
    without touching buffer or world; [EndNestedBatch] of that empty
    identifier does nothing either, so the bracket around a replay then
    amounts to enqueueing the replayed messages alone. *)
Theorem StartNestedHistoryBatch_choice (params : list string) (ms : list IrcMessage)
    (st : St) :
  let s := session (buf st) in
  (Has s EventPlayback = true →
   StartNestedHistoryBatch params st = StartNestedBatch "history" params st)
  ∧ (Has s EventPlayback = false → Has s Batch = true →
     StartNestedHistoryBatch params st = StartNestedBatch "chathistory" params st)
  ∧ (Has s EventPlayback = false → Has s Batch = false →
     StartNestedHistoryBatch params st = ("", st)
     ∧ exec (let* b := StartNestedHistoryBatch params in
             let* _ := forEach ms AddMessage in
             EndNestedBatch b) st
       = exec (forEach ms AddMessage) st).
Proof.
  intros s.
  assert (Hrun : StartNestedHistoryBatch params st =
            (if Has s EventPlayback then StartNestedBatch "history" params
             else if Has s Batch then StartNestedBatch "chathistory" params
             else ret "") st).
  { unfold StartNestedHistoryBatch. rewrite bind_run.
    change (result getBuf st) with (buf st). change (exec getBuf st) with st. fold s.
    by destruct (Has s EventPlayback), (Has s Batch). }
  split; [|split].
  - intros Hplay. by rewrite Hrun, Hplay.
  - intros Hplay Hbatch. by rewrite Hrun, Hplay, Hbatch.
  - intros Hplay Hbatch.
    assert (Hnone : StartNestedHistoryBatch params st = ("", st)).
    { by rewrite Hrun, Hplay, Hbatch. }
    split; [exact Hnone|].
    rewrite exec_bind.
    change (result (StartNestedHistoryBatch params) st)
      with (fst (StartNestedHistoryBatch params st)).
    change (exec (StartNestedHistoryBatch params) st)
      with (snd (StartNestedHistoryBatch params st)).
    rewrite Hnone. cbn [fst snd].
    rewrite exec_bind. unfold EndNestedBatch. by rewrite bool_decide_eq_true_2.
Qed.

Lemma StartNestedHistoryBatch_choice_witness :
  Has (session (buf nestedSt)) EventPlayback = false
  ∧ Has (session (buf nestedSt)) Batch = false
  ∧ StartNestedHistoryBatch ["#chan"] nestedSt = ("", nestedSt)
  ∧ Has (session (buf closedNestedSt)) Batch = true
  ∧ result (StartNestedHistoryBatch ["#chan"]) closedNestedSt = "tok1".
Proof.
  split; [reflexivity|]. split; [reflexivity|]. split.
  { apply (proj2 (proj2 (StartNestedHistoryBatch_choice ["#chan"] [] nestedSt)));
      reflexivity. }
  split; [reflexivity|]. unfold result.
  rewrite (proj1 (proj2 (StartNestedHistoryBatch_choice ["#chan"] [] closedNestedSt)));
    reflexivity.
Defined.

(** ** Broadcast *)

Lemma forEach_sessionSend (s : Session) tags prefix command params
    (peers : list nat) (st : St) :
  forEach peers (λ session',
      if bool_decide (session' ≠ sessionID s)
      then sessionSend session' tags prefix command params
      else ret ()) st =
    ((), {| buf := buf st;
            world :=
              {| sent := sent (world st);
                 peerSent :=
                   peerSent (world st)
                     ++ map (λ peer, (peer, MakeMessage tags prefix command params))
                            (List.filter (λ peer, bool_decide (peer ≠ sessionID s)) peers);
                 errlog := errlog (world st); stackDumps := stackDumps (world st);
                 rand := rand (world st); drawn := drawn (world st) |} |}).
Proof.
  revert st. induction peers as [|p peers IH]; intros st.
  - cbn. rewrite app_nil_r. by destruct st as [? []].
  - cbn [forEach List.filter]. rewrite bind_run.
    destruct (bool_decide (p ≠ sessionID s)).
    + unfold exec. cbn [sessionSend modifyWorld snd]. rewrite IH.
      cbn [buf world relayed sent peerSent errlog stackDumps rand drawn map].
      by rewrite <- app_assoc.
    + unfold exec. cbn [ret snd]. by rewrite IH.
Qed.

(** X8: [Broadcast] does to this buffer what [Add] does, hands the session
    of the buffer nothing, and hands every other session of the client,
    in order and once each, a copy of the message as the caller gave it,
    without the batch tag or label of this buffer.  The copies go out also
    when the buffer is finalized and the message itself is dropped. *)
Theorem Broadcast_copies (tags : gmap string string) (prefix command : string)
    (params : list string) (st : St) :
  let st' := exec (Broadcast tags prefix command params) st in
  let added := exec (Add tags prefix command params) st in
  buf st' = buf added
  ∧ sent (world st') = sent (world st)
  ∧ errlog (world st') = errlog (world added)
  ∧ peerSent (world st') =
      peerSent (world st)
        ++ broadcastCopies (session (buf st)) (MakeMessage tags prefix command params).
Proof.
  intros st' added. subst st'. unfold Broadcast.
  rewrite exec_bind. fold added. rewrite exec_bind.
  change (exec getBuf added) with added. change (result getBuf added) with (buf added).
  unfold exec at 1 2 3 4. rewrite forEach_sessionSend.
  cbn [snd buf world sent errlog peerSent].
  destruct (sameFrame_AddMessage (MakeMessage tags prefix command params) st)
    as (Hs & _). fold (Add tags prefix command params) in Hs. fold added in Hs.
  rewrite Hs. unfold broadcastCopies.
  unfold added, exec, Add. rewrite AddMessage_eq.
  by destruct (finalized (buf st)).
Qed.

(** ** A forced batch *)

Lemma ForceBatchStart_eq (batchType : string) (blocking : bool) (st : St) :
  batchID (buf st) = "" →
  exec (ForceBatchStart batchType blocking) st =
    let r := set_batchType batchType (buf st) in
    let id := rand (world st) (drawn (world st)) in
    {| buf := set_batchID id r;
       world := transmitted [wire (session r) blocking (batchOpenLine r id)]
                            (advanced (world st)) |}.
Proof.
  intros Hunset. unfold ForceBatchStart. rewrite exec_bind, sendBatchStart_sent.
  cbn [exec modifyBuf snd buf world set_batchType batchID].
  by rewrite bool_decide_eq_false_2 by (by intros ?).
Qed.

(** X9: [ForceBatchStart] on a buffer without open batch opens one of the
    given type at once, whatever the capabilities and the label are, and
    the terminal flush that follows wraps the queue in it: the session
    gets the open line with the given type, the queued messages (those
    without batch tag as members of the batch) and the close line.  With
    an empty queue that is an empty batch. *)
Theorem ForceBatchStart_wraps (bt : string) (b1 b2 : bool) (st : St) :
  let r := buf st in
  let s := session r in
  let id := rand (world st) (drawn (world st)) in
  finalized r = false → batchID r = "" → id ≠ "" →
  sentBy (let* _ := ForceBatchStart bt b1 in Send b2) st =
    [batchOpenLine (set_batchType bt r) id]
      ++ map (outgoing s id) (messages r)
      ++ [batchCloseLine r id]
  ∧ Params (batchOpenLine (set_batchType bt r) id) = ["+" +:+ id; bt]
  ∧ (messages r = [] →
     sentBy (let* _ := ForceBatchStart bt b1 in Send b2) st =
       [batchOpenLine (set_batchType bt r) id; batchCloseLine r id]).
Proof.
  intros r s id Hfin Hunset Hid.
  assert (Hsent : sentBy (let* _ := ForceBatchStart bt b1 in Send b2) st =
            [batchOpenLine (set_batchType bt r) id]
              ++ map (outgoing s id) (messages r) ++ [batchCloseLine r id]).
  { pose proof (ForceBatchStart_eq bt b1 st Hunset) as Hforce.
    cbv zeta in Hforce. fold r id in Hforce.
    set (st1 := exec (ForceBatchStart bt b1) st) in *.
    assert (Hfin1 : finalized (buf st1) = false) by (by rewrite Hforce).
    assert (Hset1 : batchID (buf st1) ≠ "") by (by rewrite Hforce).
    assert (Hb1 : batchID (buf st1) = id) by (by rewrite Hforce).
    assert (Hs1 : session (buf st1) = s) by (by rewrite Hforce).
    assert (Hq1 : messages (buf st1) = messages r) by (by rewrite Hforce).
    assert (Hw1 : sent (world st1) =
              sent (world st)
                ++ [wire s b1 (batchOpenLine (set_batchType bt r) id)])
      by (by rewrite Hforce).
    destruct (flushInternal_sent true b2 st1 Hfin1) as (Hflush & _).
    rewrite (afterDecision_open true b2 st1 Hset1) in Hflush.
    rewrite (bool_decide_eq_true_2 _ Hset1) in Hflush. cbn [andb] in Hflush.
    rewrite Hb1, Hs1, Hq1, Hw1, <- app_assoc in Hflush.
    erewrite sentBy_app.
    2:{ rewrite exec_bind. fold st1. exact Hflush. }
    rewrite !map_app, map_wire. cbn [map t_msg wire]. unfold batchCloseLine.
    by rewrite Hs1. }
  split; [exact Hsent|]. split.
  - unfold batchOpenLine. cbn [batchType set_batchType]. by case_bool_decide.
  - intros Hq. by rewrite Hsent, Hq.
Qed.

Lemma ForceBatchStart_wraps_witness :
  finalized (buf closedNestedSt) = false
  ∧ batchID (buf closedNestedSt) = ""
  ∧ rand (world closedNestedSt) (drawn (world closedNestedSt)) ≠ ""
  ∧ map (λ m, (Command m, Params m, Tags m !! "batch"))
        (sentBy (let* _ := ForceBatchStart "chathistory" true in Send true) closedNestedSt)
    = [("BATCH", ["+tok1"; "chathistory"], None);
       ("BATCH", ["+tok0"; "history"; "#chan"], Some "tok1");
       ("BATCH", ["-tok0"], Some "tok1");
       ("BATCH", ["-tok1"], None)].
Proof.
  split; [reflexivity|]. split; [reflexivity|]. split; [vm_compute; discriminate|].
  rewrite (proj1 (ForceBatchStart_wraps "chathistory" true true closedNestedSt
                    eq_refl eq_refl ltac:(vm_compute; discriminate))).
  vm_compute. reflexivity.
Defined.

(** ** After the terminal flush *)

Lemma silent_refl st : silent st st.
Proof. done. Qed.

Lemma silent_trans st1 st2 st3 : silent st1 st2 → silent st2 st3 → silent st1 st3.
Proof.
  intros (?&?&?&?) (?&?&?&?). repeat split; congruence.
Qed.

Lemma silent_AddMessage msg st :
  finalized (buf st) = true → silent st (exec (AddMessage msg) st).
Proof. intros Hfin. unfold exec. by rewrite AddMessage_eq, Hfin. Qed.

Lemma silent_forEach {A} (l : list A) (body : A → M unit) :
  (∀ x st, finalized (buf st) = true → silent st (exec (body x) st)) →
  ∀ st, finalized (buf st) = true → silent st (exec (forEach l body) st).
Proof.
  intros Hbody. induction l as [|x l IH]; intros st Hfin; [apply silent_refl|].
  cbn [forEach]. rewrite exec_bind.
  pose proof (Hbody x st Hfin) as Hx.
  eapply silent_trans; [exact Hx|]. apply IH. destruct Hx as (-> & _). exact Hfin.
Qed.

Lemma silent_AddFromClient time msgid mask account tags command params st :
  finalized (buf st) = true →
  silent st (exec (AddFromClient time msgid mask account tags command params) st).
Proof. intros Hfin. unfold exec. rewrite AddFromClient_eq. by apply silent_AddMessage. Qed.

Lemma call_silent (op : Op) (st : St) :
  buffered op → finalized (buf st) = true → silent st (exec (call op) st).
Proof.
  destruct op; cbn [call buffered]; intros Hop Hfin; try done; rewrite ?exec_discard.
  - by apply silent_AddMessage.
  - by apply silent_AddMessage.
  - unfold Broadcast. rewrite exec_bind.
    match goal with |- silent st (exec _ (exec ?add st)) =>
      apply (silent_trans _ (exec add st)); [by apply silent_AddMessage|] end.
    rewrite exec_bind. unfold exec at 2. rewrite forEach_sessionSend. done.
  - by apply silent_AddFromClient.
  - unfold AddSplitMessageFromClient. rewrite exec_bind. change (exec getBuf st) with st.
    destruct (_ || _); [by apply silent_AddFromClient|].
    apply silent_forEach; [|done]. intros. by apply silent_AddFromClient.
  - unfold exec at 1. rewrite StartNestedBatch_eq. cbn [snd]. unfold exec.
    rewrite AddMessage_eq. cbn [snd buf]. by rewrite Hfin.
  - unfold EndNestedBatch. case_bool_decide; [apply silent_refl|].
    rewrite exec_bind. change (exec getBuf st) with st.
    change (result getBuf st) with (buf st).
    destruct (_ || _); [done|]. rewrite exec_bind. unfold exec.
    by rewrite AddMessage_eq; cbn [modifyBuf snd buf set_nestedBatches finalized];
      rewrite Hfin.
  - unfold StartNestedHistoryBatch. rewrite exec_bind. change (exec getBuf st) with st.
    case_bool_decide; [|apply silent_refl].
    unfold exec at 1. rewrite StartNestedBatch_eq. cbn [snd]. unfold exec.
    rewrite AddMessage_eq. cbn [snd buf]. by rewrite Hfin.
  - unfold exec, Send. by rewrite flushInternal_eq, Hfin.
  - unfold exec, Flush. by rewrite flushInternal_eq, Hfin.
  - unfold Notice. rewrite exec_bind. by apply silent_AddMessage.
Qed.

(** X10: a finalized buffer is inert.  Whatever is enqueued into it or
    flushed from it afterwards, by any sequence of calls to [AddMessage],
    [Add], [Broadcast], [AddFromClient], [AddSplitMessageFromClient],
    [Notice], the nested-batch operations, [Send] and [Flush], the queue
    stays as it is, the session is handed nothing more, and the buffer
    stays finalized with the batch identifier it has. *)
Theorem finalized_buffer_is_inert (ops : list Op) (st : St) :
  finalized (buf st) = true → Forall buffered ops →
  finalized (buf (exec (calls ops) st)) = true
  ∧ messages (buf (exec (calls ops) st)) = messages (buf st)
  ∧ sent (world (exec (calls ops) st)) = sent (world st)
  ∧ batchID (buf (exec (calls ops) st)) = batchID (buf st).
Proof.
  intros Hfin Hops.
  assert (Hsilent : silent st (exec (calls ops) st)).
  { revert st Hfin. induction Hops as [|op ops Hop _ IH]; intros st Hfin.
    - apply silent_refl.
    - rewrite calls_cons. pose proof (call_silent op st Hop Hfin) as Hstep.
      eapply silent_trans; [exact Hstep|]. apply IH.
      destruct Hstep as (-> & _). exact Hfin. }
  destruct Hsilent as (Hf & Hq & Hs & Hb). rewrite Hf. by repeat split.
Qed.

Lemma finalized_buffer_is_inert_witness :
  finalized (buf ackedSt) = true
  ∧ Forall buffered [OpAdd ∅ bobMask "PRIVMSG" ["#chan"; "late"];
                     OpStartNestedBatch "history" ["#chan"]; OpNotice "late"; OpSend true]
  ∧ sent (world (exec (calls [OpAdd ∅ bobMask "PRIVMSG" ["#chan"; "late"];
                              OpStartNestedBatch "history" ["#chan"]; OpNotice "late";
                              OpSend true]) ackedSt))
    = sent (world ackedSt).
Proof.
  split; [reflexivity|]. split; [repeat constructor|].
  apply (finalized_buffer_is_inert
           [OpAdd ∅ bobMask "PRIVMSG" ["#chan"; "late"];
            OpStartNestedBatch "history" ["#chan"]; OpNotice "late"; OpSend true]
           ackedSt); [reflexivity | repeat constructor].
Defined.

(** ** The label of the request *)

Lemma GetLabel_ack r : GetLabel (ackMessage r) = Label r.
Proof.
  unfold GetLabel, GetTag, ackMessage. rewrite Tags_setTimeTag by done.
  cbn [Tags SetTag]. by rewrite lookup_insert_eq.
Qed.

(** X11: a buffer created for a request and given the label that
    [GetLabel] reads from it answers a request that produced no output
    with exactly one ACK from which [GetLabel] reads the same label back,
    provided the session has the capability and the label is not empty.
    A request without label tag has the empty label, and then, as for any
    session without the capability, nothing at all is sent. *)
Theorem label_echo (s : Session) (request : IrcMessage) (w : World) (blocking : bool) :
  (Has s LabeledResponse = true → GetLabel request ≠ "" →
   ∃ ack, sentBy (Send blocking) (bufferFor s request w) = [ack]
          ∧ Command ack = "ACK"
          ∧ Prefix ack = serverName s
          ∧ GetLabel ack = GetLabel request)
  ∧ (Tags request !! LabelTagName = None → GetLabel request = "")
  ∧ (Has s LabeledResponse = false ∨ GetLabel request = "" →
     sentBy (Send blocking) (bufferFor s request w) = []).
Proof.
  set (st := bufferFor s request w).
  assert (Hfin : finalized (buf st) = false) by done.
  assert (Hq : messages (buf st) = []) by done.
  assert (Hb : batchID (buf st) = "") by done.
  assert (Hs : session (buf st) = s) by done.
  assert (Hl : Label (buf st) = GetLabel request) by done.
  clearbody st. unfold Send.
  destruct (flushInternal_sent true blocking st Hfin) as (Hsent & _).
  rewrite Hs in Hsent.
  split; [|split].
  - intros Hcap Hlabel.
    assert (afterDecision true blocking st =
              {| buf := buf st;
                 world := transmitted [wire s blocking (ackMessage (buf st))] (world st) |})
      as Hdec.
    { unfold afterDecision. rewrite Hs, Hl, Hq, Hb, Hcap, (bool_decide_eq_true_2 _ Hlabel).
      reflexivity. }
    rewrite Hdec in Hsent. cbn [buf world sent transmitted] in Hsent.
    rewrite Hq, Hb in Hsent. cbn [map andb] in Hsent.
    rewrite (bool_decide_eq_false_2 ("" ≠ "")) in Hsent by (intros Hne; by apply Hne).
    rewrite !app_nil_r in Hsent.
    exists (ackMessage (buf st)). split; [by rewrite (sentBy_app _ _ _ Hsent)|].
    split; [|split; [|by rewrite GetLabel_ack]].
    + unfold ackMessage.
      match goal with |- Command (setTimeTag ?s0 ?m ?t) = _ =>
        by destruct (setTimeTag_shape s0 m t) as (_ & -> & _) end.
    + unfold ackMessage. rewrite Hs.
      match goal with |- Prefix (setTimeTag ?s0 ?m ?t) = _ =>
        by destruct (setTimeTag_shape s0 m t) as (-> & _ & _) end.
  - intros Hnone. unfold GetLabel, GetTag. by rewrite Hnone.
  - intros Hnolabel.
    assert (Huse : Has (session (buf st)) LabeledResponse
                   && bool_decide (Label (buf st) ≠ "") = false).
    { rewrite Hs, Hl. destruct Hnolabel as [-> | ->]; [done | apply andb_false_r]. }
    rewrite (afterDecision_unlabelled true blocking st Huse) in Hsent.
    rewrite Hq, Hb in Hsent. cbn [map andb] in Hsent.
    rewrite (bool_decide_eq_false_2 ("" ≠ "")) in Hsent by (intros Hne; by apply Hne).
    apply (sentBy_app _ _ []). by rewrite Hsent.
Qed.

Lemma label_echo_witness :
  Has (demoSession {[LabeledResponse]}) LabeledResponse = true
  ∧ GetLabel (SetTag LabelTagName "abc123" (privmsg "hi")) ≠ ""
  ∧ map (λ m, (Command m, GetLabel m))
        (sentBy (Send true)
                (bufferFor (demoSession {[LabeledResponse]})
                           (SetTag LabelTagName "abc123" (privmsg "hi")) demoWorld))
    = [("ACK", "abc123")].
Proof.
  assert (Hcap : Has (demoSession {[LabeledResponse]}) LabeledResponse = true)
    by (vm_compute; reflexivity).
  assert (Hlabel : GetLabel (SetTag LabelTagName "abc123" (privmsg "hi")) ≠ "")
    by (vm_compute; discriminate).
  split; [exact Hcap|]. split; [exact Hlabel|].
  destruct (proj1 (label_echo (demoSession {[LabeledResponse]})
                     (SetTag LabelTagName "abc123" (privmsg "hi")) demoWorld true)
              Hcap Hlabel)
    as (ack & -> & Hc & _ & Hl).
  cbn [map]. rewrite Hc, Hl. reflexivity.
Defined.

(** ** Flushing in parts *)

Lemma flushInternal_open_sent (final blocking : bool) (st : St) :
  finalized (buf st) = false → batchID (buf st) ≠ "" →
  sent (world (exec (flushInternal final blocking) st)) =
    sent (world st)
      ++ map (wire (session (buf st)) blocking)
             (map (outgoing (session (buf st)) (batchID (buf st))) (messages (buf st))
                ++ (if final then [batchCloseLine (buf st) (batchID (buf st))] else [])).
Proof.
  intros Hfin Hset.
  destruct (flushInternal_sent final blocking st Hfin) as (Hsent & _).
  rewrite (afterDecision_open final blocking st Hset) in Hsent.
  rewrite (bool_decide_eq_true_2 _ Hset), andb_true_r in Hsent.
  rewrite Hsent, map_app. by destruct final.
Qed.

(** X12: [ForceBatchStart] on a buffer whose batch is open sends nothing
    and only records the new batch type, which no later line shows: every
    flush after it sends what it would have sent without it. *)
Theorem ForceBatchStart_open_batch (bt : string) (blocking : bool) (st : St) :
  batchID (buf st) ≠ "" →
  exec (ForceBatchStart bt blocking) st
    = {| buf := set_batchType bt (buf st); world := world st |}
  ∧ ∀ final blocking',
      sentBy (flushInternal final blocking') (exec (ForceBatchStart bt blocking) st)
      = sentBy (flushInternal final blocking') st.
Proof.
  intros Hset.
  assert (Hexec : exec (ForceBatchStart bt blocking) st
                  = {| buf := set_batchType bt (buf st); world := world st |}).
  { unfold ForceBatchStart. rewrite exec_bind, sendBatchStart_sent.
    cbn [exec modifyBuf snd buf set_batchType batchID].
    by rewrite (bool_decide_eq_true_2 _ Hset). }
  split; [exact Hexec|]. intros final blocking'. rewrite Hexec.
  destruct (finalized (buf st)) eqn:Hfin.
  - unfold sentBy, exec. rewrite !flushInternal_eq.
    cbn [snd buf world set_batchType finalized]. by rewrite Hfin.
  - erewrite (sentBy_app _ st) by (by apply flushInternal_open_sent).
    erewrite sentBy_app; [reflexivity|].
    by rewrite flushInternal_open_sent.
Qed.

Lemma ForceBatchStart_open_batch_witness :
  batchID (buf flushedSt) ≠ ""
  ∧ sentBy (flushInternal true true) (exec (ForceBatchStart "chathistory" true) flushedSt)
    = sentBy (flushInternal true true) flushedSt.
Proof.
  split; [vm_compute; discriminate|].
  apply (proj2 (ForceBatchStart_open_batch "chathistory" true flushedSt
                  ltac:(vm_compute; discriminate))).
Defined.





(** ** Counting the close lines of a batch *)

Lemma countCloses_app id l1 l2 :
  countCloses id (l1 ++ l2) = countCloses id l1 + countCloses id l2.
Proof. unfold countCloses. by rewrite List.filter_app, length_app. Qed.

Lemma countCloses_cons id m l :
  countCloses id (m :: l) = (if isCloseFor id m then 1 else 0) + countCloses id l.
Proof. unfold countCloses. simpl. by destruct (isCloseFor id m). Qed.

Lemma isCloseFor_shape id m m' :
  Command m' = Command m → Params m' = Params m → isCloseFor id m' = isCloseFor id m.
Proof. unfold isCloseFor. by intros -> ->. Qed.

Lemma countCloses_map id (f : IrcMessage → IrcMessage) l :
  (∀ m, Command (f m) = Command m ∧ Params (f m) = Params m) →
  countCloses id (map f l) = countCloses id l.
Proof.
  intros Hf. induction l as [|m l IH]; [done|].
  cbn [map]. rewrite !countCloses_cons, IH.
  destruct (Hf m) as [Hc Hp]. by rewrite (isCloseFor_shape id m (f m)).
Qed.

Lemma isCloseFor_command id m : Command m ≠ "BATCH" → isCloseFor id m = false.
Proof. intros H. unfold isCloseFor. by rewrite bool_decide_eq_false_2. Qed.

Lemma isCloseFor_queuedForm id r m : isCloseFor id (queuedForm r m) = isCloseFor id m.
Proof. unfold queuedForm. by destruct (last (nestedBatches r)). Qed.

Lemma isCloseFor_close id r x : isCloseFor id (batchCloseLine r x) = bool_decide (x = id).
Proof.
  unfold isCloseFor, batchCloseLine. cbn [Command Params MakeMessage].
  rewrite bool_decide_eq_true_2 by done. cbn [andb].
  apply bool_decide_ext. split; [by intros [=] | by intros ->].
Qed.

Lemma isCloseFor_open id r x : isCloseFor id (batchOpenLine r x) = false.
Proof.
  unfold batchOpenLine. rewrite (isCloseFor_shape id
    (MakeMessage ∅ (serverName (session r)) "BATCH" ["+" +:+ x; batchType r]))
    by (by case_bool_decide).
  unfold isCloseFor. cbn [Command Params MakeMessage].
  apply andb_false_intro2, bool_decide_eq_false_2. intros [=].
Qed.

Lemma isCloseFor_ack id r : isCloseFor id (ackMessage r) = false.
Proof.
  apply isCloseFor_command. unfold ackMessage.
  destruct (setTimeTag_shape (session r)
    (SetTag LabelTagName (Label r) (MakeMessage ∅ (serverName (session r)) "ACK" []))
    zeroTime) as (_ & -> & _). done.
Qed.

(** ** The close line of the top-level batch *)

Lemma closeStep_refl st : closeStep st st.
Proof. by repeat split. Qed.

Lemma closeStep_trans st1 st2 st3 : closeStep st1 st2 → closeStep st2 st3 → closeStep st1 st3.
Proof.
  intros (Hr1 & Hd1 & Hb1 & Hf1 & Hn1 & H1) (Hr2 & Hd2 & Hb2 & Hf2 & Hn2 & H2).
  split; [congruence|]. split; [congruence|]. split; [congruence|].
  split; [congruence|]. split; [auto|].
  intros id Hid Hq. destruct (H1 id Hid Hq) as (Hq1 & Hs1).
  destruct (H2 id) as (Hq2 & Hs2); [by intros ?%Hn1 | done |]. split; congruence.
Qed.

Lemma closeStep_forEach {A} (l : list A) (body : A → M unit) :
  (∀ x st, closeStep st (exec (body x) st)) →
  ∀ st, closeStep st (exec (forEach l body) st).
Proof.
  intros Hbody. induction l as [|x l IH]; intros st; [apply closeStep_refl|].
  cbn [forEach]. rewrite exec_bind. eapply closeStep_trans; [apply Hbody | apply IH].
Qed.

Lemma closeInv_step st st' :
  Inj (=) (=) (rand (world st)) → closeStep st st' → closeInv st → closeInv st'.
Proof.
  intros Hinj (Hr & Hd & Hb & Hf & Hn & Hstep) (Hnested & Hfresh & Hset).
  split; [|split].
  - intros x Hx. rewrite Hr, Hd. by apply Hnested, Hn.
  - intros j Hj. rewrite Hr. rewrite Hd in Hj. destruct (Hfresh j Hj) as (Hq & Hs).
    destruct (Hstep (rand (world st) j)) as (Hq' & Hs'); [|done|split; congruence].
    intros Hin. destruct (Hnested _ Hin) as (k & Hk & Heq). apply Hinj in Heq. lia.
  - rewrite Hb, Hr, Hd, Hf. intros Hne.
    destruct (Hset Hne) as (Hk & Hnot & Hq & Hle & Hzero).
    destruct (Hstep _ Hnot Hq) as (Hq' & Hs'). rewrite Hs'.
    split; [done|]. split; [by intros ?%Hn|]. by repeat split.
Qed.

Lemma preservesClose_refl st : preservesClose st st.
Proof. by split. Qed.

Lemma preservesClose_trans st1 st2 st3 :
  preservesClose st1 st2 → preservesClose st2 st3 → preservesClose st1 st3.
Proof.
  intros (Hr1 & H1) (Hr2 & H2). split; [congruence|].
  intros Hinj Hinv. apply H2; [by rewrite Hr1 | by apply H1].
Qed.

Lemma preservesClose_step st st' : closeStep st st' → preservesClose st st'.
Proof.
  intros Hstep. split; [apply Hstep|]. intros Hinj. by apply closeInv_step.
Qed.

Lemma closeStep_AddMessage msg st :
  (∀ id, id ∉ nestedBatches (buf st) → isCloseFor id msg = false) →
  closeStep st (exec (AddMessage msg) st).
Proof.
  intros Hplain. unfold exec. rewrite AddMessage_eq. cbn [snd].
  destruct (finalized (buf st)) eqn:Hfin; [by repeat split|].
  split; [done|]. split; [done|]. split; [done|]. split; [done|]. split; [done|].
  intros id Hid Hq. unfold queuedCloses, sentCloses in *.
  cbn [buf world set_messages messages].
  rewrite countCloses_app, Hq, countCloses_cons, isCloseFor_queuedForm, Hplain; done.
Qed.

Lemma closeStep_AddFromClient time msgid mask account tags command params st :
  command ≠ "BATCH" →
  closeStep st (exec (AddFromClient time msgid mask account tags command params) st).
Proof.
  intros Hcmd. unfold exec. rewrite AddFromClient_eq. apply closeStep_AddMessage.
  intros id _. apply isCloseFor_command. by rewrite clientMessage_command.
Qed.

Lemma closeInv_nested st st' :
  Inj (=) (=) (rand (world st)) →
  rand (world st') = rand (world st) →
  drawn (world st') = S (drawn (world st)) →
  batchID (buf st') = batchID (buf st) →
  finalized (buf st') = finalized (buf st) →
  nestedBatches (buf st') = nestedBatches (buf st) ++ [rand (world st) (drawn (world st))] →
  (∀ id, queuedCloses id st' = queuedCloses id st ∧ sentCloses id st' = sentCloses id st) →
  closeInv st → closeInv st'.
Proof.
  intros Hinj Hr Hd Hb Hf Hn Hsame (Hnested & Hfresh & Hset). split; [|split].
  - intros x. rewrite Hn, Hr, Hd. intros [Hx | ->%list_elem_of_singleton]%elem_of_app.
    + destruct (Hnested x Hx) as (k & Hk & ->). exists k. split; [lia|done].
    + exists (drawn (world st)). split; [lia|done].
  - intros j Hj. rewrite Hr. rewrite Hd in Hj.
    destruct (Hsame (rand (world st) j)) as (-> & ->). apply Hfresh. lia.
  - rewrite Hb, Hr, Hd, Hf, Hn. intros Hne.
    destruct (Hset Hne) as ((k & Hk & Hid) & Hnot & Hq & Hle & Hzero).
    destruct (Hsame (batchID (buf st))) as (-> & ->).
    split; [exists k; split; [lia|done]|]. split; [|done].
    intros [Hin | Heq%list_elem_of_singleton]%elem_of_app; [done|].
    rewrite Hid in Heq. apply Hinj in Heq. lia.
Qed.

Lemma closeInv_top st st' :
  Inj (=) (=) (rand (world st)) →
  rand (world st') = rand (world st) →
  drawn (world st') = S (drawn (world st)) →
  batchID (buf st) = "" →
  batchID (buf st') = rand (world st) (drawn (world st)) →
  nestedBatches (buf st') = nestedBatches (buf st) →
  (∀ id, queuedCloses id st' = queuedCloses id st ∧ sentCloses id st' = sentCloses id st) →
  closeInv st → closeInv st'.
Proof.
  intros Hinj Hr Hd He Hb Hn Hsame (Hnested & Hfresh & _). split; [|split].
  - intros x. rewrite Hn, Hr, Hd. intros Hx.
    destruct (Hnested x Hx) as (k & Hk & ->). exists k. split; [lia|done].
  - intros j Hj. rewrite Hr. rewrite Hd in Hj.
    destruct (Hsame (rand (world st) j)) as (-> & ->). apply Hfresh. lia.
  - rewrite Hb, Hr, Hd, Hn. intros _.
    destruct (Hsame (rand (world st) (drawn (world st)))) as (-> & ->).
    destruct (Hfresh (drawn (world st)) ltac:(lia)) as (-> & ->).
    split; [exists (drawn (world st)); split; [lia|done]|].
    split; [|split; [done|split; [lia|done]]].
    intros Hin. destruct (Hnested _ Hin) as (k & Hk & Heq). apply Hinj in Heq. lia.
Qed.

Lemma preservesClose_sendBatchStart blocking st :
  preservesClose st (exec (sendBatchStart blocking) st).
Proof.
  rewrite sendBatchStart_sent. case_bool_decide as Hset; [apply preservesClose_refl|].
  cbv zeta. split; [done|]. intros Hinj. apply closeInv_top; try done.
  intros id. split; [done|]. unfold sentCloses. cbn [world sent transmitted advanced].
  rewrite map_app, countCloses_app. cbn [map t_msg wire].
  rewrite countCloses_cons, isCloseFor_open. cbn. lia.
Qed.

Lemma preservesClose_StartNestedBatch batchType params st :
  preservesClose st (exec (StartNestedBatch batchType params) st).
Proof.
  unfold exec at 1. rewrite StartNestedBatch_eq. cbn [snd]. unfold exec.
  rewrite AddMessage_eq. cbn [snd buf world].
  destruct (finalized (buf st)) eqn:Hfin.
  { split; [done|]. intros Hinj. apply closeInv_nested; try done. }
  split; [done|]. intros Hinj. apply closeInv_nested; try done.
  intros id. split; [|done].
  unfold queuedCloses; cbn [buf set_nestedBatches set_messages messages].
  rewrite countCloses_app, countCloses_cons, isCloseFor_queuedForm.
  unfold isCloseFor. cbn [Command Params MakeMessage].
  rewrite (bool_decide_eq_false_2 (_ :: _ = _)) by (by intros [=]).
  rewrite andb_false_r. cbn. lia.
Qed.

Lemma closeStep_EndNestedBatch id st : closeStep st (exec (EndNestedBatch id) st).
Proof.
  unfold EndNestedBatch. case_bool_decide as Hid; [apply closeStep_refl|].
  rewrite exec_bind. change (exec getBuf st) with st.
  change (result getBuf st) with (buf st).
  destruct (bool_decide (0 = length (nestedBatches (buf st)))
            || bool_decide (last (nestedBatches (buf st)) ≠ Some id)) eqn:Hbad;
    [by repeat split|].
  apply orb_false_iff in Hbad as [_ Htop%bool_decide_eq_false].
  assert (Hlast : last (nestedBatches (buf st)) = Some id).
  { destruct (decide (last (nestedBatches (buf st)) = Some id)); [done|by destruct Htop]. }
  assert (Hin : id ∈ nestedBatches (buf st)).
  { apply last_Some in Hlast as (l' & ->). apply elem_of_app. right.
    by apply list_elem_of_singleton. }
  rewrite exec_bind. unfold exec. rewrite AddMessage_eq.
  cbn [modifyBuf snd buf world set_nestedBatches finalized messages nestedBatches].
  assert (Hsub : ∀ x, x ∈ take (length (nestedBatches (buf st)) - 1) (nestedBatches (buf st))
                      → x ∈ nestedBatches (buf st)).
  { intros x Hx. by apply (subseteq_take _ _ x Hx). }
  destruct (finalized (buf st)) eqn:Hfin.
  { split; [done|]. split; [done|]. split; [done|]. split; [done|]. by split. }
  split; [done|]. split; [done|]. split; [done|]. split; [done|]. split; [exact Hsub|].
  intros x Hx Hq. unfold queuedCloses, sentCloses in *.
  cbn [buf world set_messages set_nestedBatches messages].
  rewrite countCloses_app, Hq, countCloses_cons, isCloseFor_queuedForm.
  split; [|done]. fold (batchCloseLine (buf st) id).
  rewrite isCloseFor_close, bool_decide_eq_false_2; [done|].
  intros ->. by destruct Hx.
Qed.

Lemma closeStep_afterQueue blocking st : closeStep st (afterQueue blocking st).
Proof.
  split; [done|]. split; [done|]. split; [done|]. split; [done|]. split; [done|].
  intros id _ Hq. split; [done|].
  unfold sentCloses, queuedCloses, afterQueue in *. cbn [world sent transmitted].
  rewrite map_app, countCloses_app.
  rewrite <- (map_map (outgoing (session (buf st)) (batchID (buf st)))
                      (wire (session (buf st)) blocking)).
  rewrite map_wire, countCloses_map, Hq; [lia|].
  intros m. destruct (outgoing_shape (session (buf st)) (batchID (buf st)) m) as (_&?&?).
  done.
Qed.

Lemma preservesClose_afterDecision final blocking st :
  preservesClose st (afterDecision final blocking st).
Proof.
  unfold afterDecision.
  destruct (_ && (_ || _)); [apply preservesClose_sendBatchStart|].
  destruct (_ && _ && _ && _).
  { apply preservesClose_step. split; [done|]. split; [done|]. split; [done|].
    split; [done|]. split; [done|].
    intros id _ Hq. split; [done|]. unfold sentCloses. cbn [world sent transmitted].
    rewrite map_app, countCloses_app. cbn [map t_msg wire]. rewrite countCloses_cons.
    rewrite isCloseFor_ack. cbn. lia. }
  destruct (_ && _ && _ && _); [|apply preservesClose_refl].
  apply preservesClose_step. split; [done|]. split; [done|]. split; [done|].
  split; [done|]. split; [done|].
  intros id _ Hq. split; [|done]. unfold queuedCloses in *. cbn [buf set_messages messages].
  destruct (messages (buf st)) as [|m ms]; [done|]. cbn [alter list_alter].
  rewrite countCloses_cons in *.
  by rewrite (isCloseFor_shape id m (SetTag LabelTagName (Label (buf st)) m)).
Qed.

(** The terminal flush closing the batch and finalizing the buffer. *)
Lemma preservesClose_afterClose final blocking st :
  finalized (buf st) = false → preservesClose st (afterClose final blocking st).
Proof.
  intros Hfin. unfold afterClose. destruct final; [|apply preservesClose_refl].
  unfold exec. rewrite sendBatchEnd_eq. cbn [snd].
  destruct (decide (batchID (buf st) = "")) as [He|Hne].
  - rewrite (bool_decide_eq_true_2 _ He). split; [done|].
    intros _ (Hnested & Hfresh & Hset). split; [done|]. split; [done|].
    cbn [buf set_finalized batchID]. intros Hne. by destruct Hne.
  - rewrite (bool_decide_eq_false_2 _ Hne). cbn [buf world]. split; [done|].
    intros Hinj (Hnested & Hfresh & Hset).
    destruct (Hset Hne) as ((k & Hk & Hid) & Hnot & Hq & Hle & Hzero).
    assert (Hsent : ∀ id,
      sentCloses id {| buf := set_finalized true (buf st);
                       world := transmitted
                                  [wire (session (buf st)) blocking
                                        (MakeMessage ∅ (serverName (session (buf st)))
                                                     "BATCH" ["-" +:+ batchID (buf st)])]
                                  (world st) |}
      = sentCloses id st + (if bool_decide (batchID (buf st) = id) then 1 else 0)).
    { intros id. unfold sentCloses. cbn [world sent transmitted].
      rewrite map_app, countCloses_app. cbn [map t_msg wire]. rewrite countCloses_cons.
      fold (batchCloseLine (buf st) (batchID (buf st))). rewrite isCloseFor_close.
      cbn. lia. }
    split; [done|]. split.
    + intros j Hj. cbn [world transmitted rand drawn] in *.
      destruct (Hfresh j Hj) as (Hq0 & Hs0). split; [done|].
      rewrite Hsent, Hs0, bool_decide_eq_false_2; [done|].
      rewrite Hid. intros Heq. apply Hinj in Heq. lia.
    + cbn [buf set_finalized batchID nestedBatches finalized world transmitted rand drawn].
      intros _. split; [eauto|]. split; [done|]. split; [done|].
      rewrite Hsent, (Hzero Hfin), bool_decide_eq_true_2 by done.
      split; [cbn; lia | done].
Qed.

Lemma preservesClose_flushInternal final blocking st :
  preservesClose st (exec (flushInternal final blocking) st).
Proof.
  unfold exec. rewrite flushInternal_eq. cbn [snd].
  destruct (finalized (buf st)) eqn:Hfin; [apply preservesClose_refl|].
  pose proof (afterDecision_finalized final blocking st) as Hfin1. rewrite Hfin in Hfin1.
  set (st1 := afterDecision final blocking st) in *.
  apply (preservesClose_trans _ st1); [apply preservesClose_afterDecision|].
  set (st2 := afterQueue blocking st1).
  apply (preservesClose_trans _ st2);
    [apply preservesClose_step, closeStep_afterQueue|].
  apply (preservesClose_trans _ (afterClose final blocking st2));
    [by apply preservesClose_afterClose|].
  apply preservesClose_step.
  split; [done|]. split; [done|]. split; [done|]. split; [done|]. split; [done|].
  intros id _ Hq. by split.
Qed.

Lemma call_preservesClose (op : Op) (st : St) :
  honest op → notSendBatchEnd op → preservesClose st (exec (call op) st).
Proof.
  destruct op; cbn [call honest notSendBatchEnd]; intros Hop Hpub; try done;
    rewrite ?exec_discard.
  - apply preservesClose_step, closeStep_AddMessage.
    intros id _. by apply isCloseFor_command.
  - apply preservesClose_step, closeStep_AddMessage.
    intros id _. by apply isCloseFor_command.
  - apply preservesClose_step. unfold Broadcast. rewrite exec_bind.
    match goal with |- closeStep st (exec _ (exec ?add st)) =>
      apply (closeStep_trans _ (exec add st)) end.
    { apply closeStep_AddMessage. intros id _. by apply isCloseFor_command. }
    rewrite exec_bind. unfold exec at 2. rewrite forEach_sessionSend. by repeat split.
  - by apply preservesClose_step, closeStep_AddFromClient.
  - apply preservesClose_step.
    unfold AddSplitMessageFromClient. rewrite exec_bind. change (exec getBuf st) with st.
    destruct (_ || _); [by apply closeStep_AddFromClient|].
    apply closeStep_forEach. intros. by apply closeStep_AddFromClient.
  - unfold ForceBatchStart. rewrite exec_bind.
    eapply preservesClose_trans; [|apply preservesClose_sendBatchStart].
    by apply preservesClose_step.
  - apply preservesClose_sendBatchStart.
  - apply preservesClose_StartNestedBatch.
  - apply preservesClose_step, closeStep_EndNestedBatch.
  - unfold StartNestedHistoryBatch. rewrite exec_bind. change (exec getBuf st) with st.
    case_bool_decide; [apply preservesClose_StartNestedBatch | apply preservesClose_refl].
  - apply preservesClose_flushInternal.
  - apply preservesClose_flushInternal.
  - unfold Notice. rewrite exec_bind. apply preservesClose_step, closeStep_AddMessage.
    intros id _. by apply isCloseFor_command.
Qed.

(** X14: the close line of the top-level batch goes out at most once and
    not before the terminal flush.  For a new buffer on a session whose
    log mentions no token that is still to be drawn, with tokens that
    never repeat and callers that leave the BATCH command and
    [sendBatchEnd] to the buffer: after any sequence of calls, if the
    batch identifier is set, the session has been sent at most one close
    line for it, and none as long as the buffer is not finalized. *)
Theorem batch_closed_at_most_once (s : Session) (w : World) (ops : list Op) :
  let st' := exec (calls ops) {| buf := NewResponseBuffer s; world := w |} in
  Inj (=) (=) (rand w) →
  (∀ j, (drawn w ≤ j)%nat → countCloses (rand w j) (map t_msg (sent w)) = 0) →
  Forall honest ops → Forall notSendBatchEnd ops →
  batchID (buf st') ≠ "" →
  (sentCloses (batchID (buf st')) st' ≤ 1)%nat
  ∧ (finalized (buf st') = false → sentCloses (batchID (buf st')) st' = 0).
Proof.
  intros st' Hinj Hlog Hhonest Hpublic Hset.
  assert (Hall : ∀ st, preservesClose st (exec (calls ops) st)).
  { clear -Hhonest Hpublic. induction ops as [|op ops IH]; intros st.
    - apply preservesClose_refl.
    - inversion Hhonest; inversion Hpublic; subst. rewrite calls_cons.
      eapply preservesClose_trans; [by apply call_preservesClose | by apply IH]. }
  destruct (Hall {| buf := NewResponseBuffer s; world := w |}) as (_ & Hinv).
  fold st' in Hinv. destruct Hinv as (_ & _ & Hclose); [exact Hinj | |].
  { split; [by intros x ?%elem_of_nil|]. split; [|done].
    intros j Hj. split; [done|]. by apply Hlog. }
  destruct (Hclose Hset) as (_ & _ & _ & Hle & Hzero). by split.
Qed.

Lemma batch_closed_at_most_once_witness :
  Forall honest [OpSetLabel "abc123"; OpAdd ∅ bobMask "PRIVMSG" ["#chan"; "hi"];
                 OpFlush true; OpStartNestedBatch "history" ["#chan"];
                 OpEndNestedBatch "tok1"; OpSend true; OpSend true]
  ∧ Forall notSendBatchEnd
      [OpSetLabel "abc123"; OpAdd ∅ bobMask "PRIVMSG" ["#chan"; "hi"];
       OpFlush true; OpStartNestedBatch "history" ["#chan"];
       OpEndNestedBatch "tok1"; OpSend true; OpSend true]
  ∧ (sentCloses "tok0"
       (exec (calls [OpSetLabel "abc123"; OpAdd ∅ bobMask "PRIVMSG" ["#chan"; "hi"];
                     OpFlush true; OpStartNestedBatch "history" ["#chan"];
                     OpEndNestedBatch "tok1"; OpSend true; OpSend true])
             {| buf := NewResponseBuffer (demoSession {[LabeledResponse]});
                world := demoWorld |}) ≤ 1)%nat.
Proof.
  split; [repeat constructor; discriminate|]. split; [repeat constructor|].
  change "tok0" with
    (batchID (buf (exec (calls [OpSetLabel "abc123";
                                OpAdd ∅ bobMask "PRIVMSG" ["#chan"; "hi"];
                                OpFlush true; OpStartNestedBatch "history" ["#chan"];
                                OpEndNestedBatch "tok1"; OpSend true; OpSend true])
                        {| buf := NewResponseBuffer (demoSession {[LabeledResponse]});
                           world := demoWorld |}))) at 1.
  apply (batch_closed_at_most_once (demoSession {[LabeledResponse]}) demoWorld
           [OpSetLabel "abc123"; OpAdd ∅ bobMask "PRIVMSG" ["#chan"; "hi"];
            OpFlush true; OpStartNestedBatch "history" ["#chan"];
            OpEndNestedBatch "tok1"; OpSend true; OpSend true]).
  - exact demoRand_inj.
  - reflexivity.
  - repeat constructor; discriminate.
  - repeat constructor.
  - vm_compute. discriminate.
Defined.

(** ** Buffering *)

Lemma appends_refl st : appends st st.
Proof. by repeat split. Qed.

Lemma appends_trans st1 st2 st3 : appends st1 st2 → appends st2 st3 → appends st1 st3.
Proof.
  intros (Hs1 & Hp1 & Hf1 & Hb1) (Hs2 & Hp2 & Hf2 & Hb2).
  split; [congruence|]. split; [by etrans|]. split; congruence.
Qed.

Lemma appends_AddMessage msg st : appends st (exec (AddMessage msg) st).
Proof.
  unfold exec. rewrite AddMessage_eq. cbn [snd].
  destruct (finalized (buf st)) eqn:Hfin; [by repeat split|].
  split; [done|]. split; [|done]. by apply prefix_app_r.
Qed.

Lemma appends_forEach {A} (l : list A) (body : A → M unit) :
  (∀ x st, appends st (exec (body x) st)) →
  ∀ st, appends st (exec (forEach l body) st).
Proof.
  intros Hbody. induction l as [|x l IH]; intros st; [apply appends_refl|].
  cbn [forEach]. rewrite exec_bind. eapply appends_trans; [apply Hbody | apply IH].
Qed.

Lemma appends_AddFromClient time msgid mask account tags command params st :
  appends st (exec (AddFromClient time msgid mask account tags command params) st).
Proof. unfold exec. rewrite AddFromClient_eq. apply appends_AddMessage. Qed.

Lemma call_appends (op : Op) (st : St) :
  enqueueing op → appends st (exec (call op) st).
Proof.
  destruct op; cbn [call enqueueing]; intros Hop; try done; rewrite ?exec_discard.
  - apply appends_AddMessage.
  - apply appends_AddMessage.
  - unfold Broadcast. rewrite exec_bind.
    match goal with |- appends st (exec _ (exec ?add st)) =>
      apply (appends_trans _ (exec add st)); [apply appends_AddMessage|] end.
    rewrite exec_bind. unfold exec at 2. rewrite forEach_sessionSend. by repeat split.
  - apply appends_AddFromClient.
  - unfold AddSplitMessageFromClient. rewrite exec_bind. change (exec getBuf st) with st.
    destruct (_ || _); [apply appends_AddFromClient|].
    apply appends_forEach. intros. apply appends_AddFromClient.
  - unfold exec at 1. rewrite StartNestedBatch_eq. cbn [snd].
    match goal with |- context [exec (AddMessage ?m) ?s0] =>
      destruct (appends_AddMessage m s0) as (Hs & Hp & Hf & Hb) end.
    by repeat split.
  - unfold EndNestedBatch. case_bool_decide; [apply appends_refl|].
    rewrite exec_bind. change (exec getBuf st) with st.
    change (result getBuf st) with (buf st).
    destruct (_ || _); [by repeat split|]. rewrite exec_bind.
    match goal with |- appends st (exec (AddMessage ?m) ?s0) =>
      apply (appends_trans _ s0); [by repeat split | apply appends_AddMessage] end.
  - unfold StartNestedHistoryBatch. rewrite exec_bind. change (exec getBuf st) with st.
    case_bool_decide; [|apply appends_refl].
    unfold exec at 1. rewrite StartNestedBatch_eq. cbn [snd].
    match goal with |- context [exec (AddMessage ?m) ?s0] =>
      destruct (appends_AddMessage m s0) as (Hs & Hp & Hf & Hb) end.
    by repeat split.
  - unfold Notice. rewrite exec_bind. apply appends_AddMessage.
Qed.

(** X15: enqueueing only buffers.  Any sequence of calls that are neither
    a flush nor a direct framing call hands the session nothing, keeps
    every message already queued in its place, adding new ones only
    behind them, and changes neither the batch identifier nor the
    finalized flag. *)
Theorem enqueueing_only_appends (ops : list Op) (st : St) :
  Forall enqueueing ops →
  sent (world (exec (calls ops) st)) = sent (world st)
  ∧ messages (buf st) `prefix_of` messages (buf (exec (calls ops) st))
  ∧ finalized (buf (exec (calls ops) st)) = finalized (buf st)
  ∧ batchID (buf (exec (calls ops) st)) = batchID (buf st).
Proof.
  intros Hops. change (appends st (exec (calls ops) st)).
  revert st. induction Hops as [|op ops Hop _ IH]; intros st.
  - apply appends_refl.
  - rewrite calls_cons. eapply appends_trans; [by apply call_appends | apply IH].
Qed.

Lemma enqueueing_only_appends_witness :
  Forall enqueueing [OpStartNestedBatch "history" ["#chan"];
                     OpAddFromClient 5 "id1" bobMask "bob" ∅ "PRIVMSG" ["#chan"; "hi"];
                     OpEndNestedBatch "tok0"; OpNotice "end of history"]
  ∧ sent (world (exec (calls [OpStartNestedBatch "history" ["#chan"];
                              OpAddFromClient 5 "id1" bobMask "bob" ∅ "PRIVMSG"
                                              ["#chan"; "hi"];
                              OpEndNestedBatch "tok0"; OpNotice "end of history"])
                      oneQueuedSt))
    = sent (world oneQueuedSt).
Proof.
  split; [repeat constructor|].
  apply (enqueueing_only_appends
           [OpStartNestedBatch "history" ["#chan"];
            OpAddFromClient 5 "id1" bobMask "bob" ∅ "PRIVMSG" ["#chan"; "hi"];
            OpEndNestedBatch "tok0"; OpNotice "end of history"] oneQueuedSt).
  repeat constructor.
Defined.
